(** * Wayward-Painel: the HTTP GET helper of Modulos/requisicoes.py

    A shallow embedding of the class [Requisicoes] and of the parts of the
    Python standard library it calls ([base64], [urllib.parse], [json],
    [urllib.request], [time]), followed by the properties of [fazer_get],
    [_montar_url_com_params], [_adicionar_autenticacao] and
    [_formatar_resposta].

    Conventions.
    - A Python [str] is a Rocq [string] holding the UTF-8 encoding of the
      text (bytes above 127 belong to non-ASCII characters).  The encoding
      is injective, so equality and dictionary lookup are those of Python.
    - A Python [dict] whose order is not observed is a [gmap]; the query
      parameters, whose order reaches the URL, are an association list in
      insertion order.
    - Python integers are [Z]. *)

From Stdlib Require Import ZArith String Ascii List Lia DecimalString DecimalPos DecimalFacts.
From stdpp Require Import gmap strings list fin_maps.
From Equations Require Import Equations.

Open Scope Z_scope.
Set Warnings "-register-all".

(** ** Python text operations used by the module *)

Module Text.

(** [c in s] for a one-character [c]. *)
Fixpoint contains (c : ascii) (s : string) : bool :=
  match s with
  | EmptyString => false
  | String a rest => if Ascii.eqb a c then true else contains c rest
  end.

(** [s.replace(a, b)] for one-character [a] and [b]. *)
Fixpoint replace (a b : ascii) (s : string) : string :=
  match s with
  | EmptyString => EmptyString
  | String x rest => String (if Ascii.eqb x a then b else x) (replace a b rest)
  end.

(** [sep.join(parts)]. *)
Fixpoint join (sep : string) (parts : list string) : string :=
  match parts with
  | [] => EmptyString
  | [p] => p
  | p :: rest => p +:+ sep +:+ join sep rest
  end.

(** [str(n)] for an integer [n]: decimal digits, a minus sign when negative. *)
Definition str_of_int (n : Z) : string := NilZero.string_of_int (Z.to_int n).

(** The hexadecimal digit of a value below 16, in the given alphabet. *)
Definition hex_digit (alphabet : string) (n : N) : ascii :=
  match String.get (N.to_nat n) alphabet with
  | Some c => c
  | None => "0"%char
  end.

Definition upper_hex : string := "0123456789ABCDEF".
Definition lower_hex : string := "0123456789abcdef".

(** The byte with the given code, as a one-character string. *)
Definition chr (n : N) : string := String (ascii_of_N n) EmptyString.

(** The examples write a text with an apostrophe where it has a quotation
    mark, a vertical bar where it has a line feed and a circumflex where
    it has a backslash. *)
Definition sample (s : string) : string :=
  replace "'" "034" (replace "|" "010" (replace "^" "092" s)).

End Text.

(** ** [base64.b64encode] followed by [.decode('utf-8')] *)

Module Base64.

Definition alphabet : string :=
  "ABCDEFGHIJKLMNOPQRSTUVWXYZabcdefghijklmnopqrstuvwxyz0123456789+/".

Definition digit (n : N) : ascii :=
  match String.get (N.to_nat n) alphabet with
  | Some c => c
  | None => "="%char
  end.

(** Three input bytes give four digits; a final group of one or two bytes
    is padded with [=]. *)
Fixpoint b64encode (s : string) : string :=
  match s with
  | EmptyString => EmptyString
  | String a EmptyString =>
      let x := N_of_ascii a in
      String (digit (N.shiftr x 2))
        (String (digit (N.shiftl (N.land x 3) 4)) "==")
  | String a (String b EmptyString) =>
      let x := N_of_ascii a in
      let y := N_of_ascii b in
      String (digit (N.shiftr x 2))
        (String (digit (N.lor (N.shiftl (N.land x 3) 4) (N.shiftr y 4)))
           (String (digit (N.shiftl (N.land y 15) 2)) "="))
  | String a (String b (String c rest)) =>
      let x := N_of_ascii a in
      let y := N_of_ascii b in
      let z := N_of_ascii c in
      String (digit (N.shiftr x 2))
        (String (digit (N.lor (N.shiftl (N.land x 3) 4) (N.shiftr y 4)))
           (String (digit (N.lor (N.shiftl (N.land y 15) 2) (N.shiftr z 6)))
              (String (digit (N.land z 63)) (b64encode rest))))
  end.

End Base64.

(** ** [urllib.parse.quote], [quote_plus] and [urlencode] *)

Module UrlParse.

(** The characters [quote] never escapes: letters, digits and [_.-~]. *)
Definition always_safe (c : ascii) : bool :=
  let n := N_of_ascii c in
  ((65 <=? n) && (n <=? 90) || (97 <=? n) && (n <=? 122)
   || (48 <=? n) && (n <=? 57) || Text.contains c "_.-~")%N.

(** One byte of [quote_from_bytes]: kept when safe, else [%XX] in
    upper-case hexadecimal. *)
Definition quote_byte (safe : string) (c : ascii) : string :=
  if always_safe c || Text.contains c safe then String c EmptyString
  else
    let n := N_of_ascii c in
    String "%" (String (Text.hex_digit Text.upper_hex (N.shiftr n 4))
                  (String (Text.hex_digit Text.upper_hex (N.land n 15)) EmptyString)).

Fixpoint quote (safe : string) (s : string) : string :=
  match s with
  | EmptyString => EmptyString
  | String c rest => quote_byte safe c +:+ quote safe rest
  end.

(** [quote_plus(s)] with its default [safe='']: a space becomes [+]. *)
Definition quote_plus (s : string) : string :=
  if Text.contains " " s then Text.replace " " "+" (quote " " s)
  else quote "" s.

(** [urlencode(query)] for a dict of strings, given by its items in
    insertion order, with the defaults [doseq=False], [quote_via=quote_plus]. *)
Definition urlencode (query : list (string * string)) : string :=
  Text.join "&" (map (fun kv => quote_plus kv.1 +:+ "=" +:+ quote_plus kv.2) query).

End UrlParse.

(** ** The [json] module: [json.loads] and [json.dumps(indent=4, ensure_ascii=False)]

    A model of the decoder (json/decoder.py, json/scanner.py) and of the
    encoder (json/encoder.py) of CPython 3.  A float is kept as the
    literal it was read from, and the text the encoder writes for it
    ([float.__repr__] of the parsed double, or [NaN], [Infinity],
    [-Infinity]) is a parameter of the encoder.  The model bounds neither
    the nesting depth nor the length of an integer: the [RecursionError]
    and, from Python 3.11 on, the [ValueError] for an integer beyond
    [sys.get_int_max_str_digits()] that CPython raises there depend on
    interpreter settings and are left out. *)

Module Json.

Definition quotation_mark : ascii := "034".
Definition backslash : ascii := "092".
Definition LF : ascii := "010".

Inductive value : Type :=
| JNull
| JBool (b : bool)
| JInt (n : Z)
| JFloat (literal : string)
| JConst (name : string)
| JStr (s : string)
| JArr (items : list value)
| JObj (pairs : list (string * value)).

(** Outcome of a scanner started at some position: the value and the
    text that follows it, or a [JSONDecodeError]; [NoFuel] is the
    bookkeeping of the recursion and is shown below never to surface. *)
Inductive scanned (A : Type) : Type :=
| Done (a : A) (rest : string)
| Malformed
| NoFuel.
Arguments Done {A} a rest.
Arguments Malformed {A}.
Arguments NoFuel {A}.

(** *** Lexical helpers *)

(** WHITESPACE = [ \t\n\r]* *)
Definition is_ws (c : ascii) : bool :=
  Ascii.eqb c " " || Ascii.eqb c "009" || Ascii.eqb c "010" || Ascii.eqb c "013".

Fixpoint skip_ws (s : string) : string :=
  match s with
  | String c rest => if is_ws c then skip_ws rest else s
  | EmptyString => s
  end.

Definition is_digit (c : ascii) : bool :=
  let n := N_of_ascii c in ((48 <=? n) && (n <=? 57))%N.

(** The longest prefix of digits and what follows it. *)
Fixpoint span_digits (s : string) : string * string :=
  match s with
  | String c rest =>
      if is_digit c then
        let '(ds, r) := span_digits rest in (String c ds, r)
      else (EmptyString, s)
  | EmptyString => (EmptyString, s)
  end.

(** [s[idx:idx+len(p)] == p]: the text after the prefix [p], if [s] starts with it. *)
Fixpoint strip_prefix (p s : string) : option string :=
  match p, s with
  | EmptyString, _ => Some s
  | String a p', String b s' => if Ascii.eqb a b then strip_prefix p' s' else None
  | String _ _, EmptyString => None
  end.

(** [int(digits)] for a string of decimal digits. *)
Fixpoint int_of_digits (acc : Z) (s : string) : Z :=
  match s with
  | String c rest => int_of_digits (10 * acc + (Z.of_N (N_of_ascii c) - 48)) rest
  | EmptyString => acc
  end.

Definition hex_value (c : ascii) : option N :=
  let n := N_of_ascii c in
  if ((48 <=? n) && (n <=? 57))%N then Some (n - 48)%N
  else if ((65 <=? n) && (n <=? 70))%N then Some (n - 55)%N
  else if ((97 <=? n) && (n <=? 102))%N then Some (n - 87)%N
  else None.

(** [_decode_uXXXX]: the value of four hexadecimal digits. *)
Definition hex4 (a b c d : ascii) : option N :=
  match hex_value a, hex_value b, hex_value c, hex_value d with
  | Some x, Some y, Some z, Some w => Some (4096 * x + 256 * y + 16 * z + w)%N
  | _, _, _, _ => None
  end.

(** [chr(u)] in the UTF-8 representation of text (a lone surrogate is
    written with the three-byte pattern, as Python's [surrogatepass]). *)
Definition chr_utf8 (u : N) : string :=
  (if u <? 128 then Text.chr u
   else if u <? 2048 then
     Text.chr (192 + N.shiftr u 6) +:+ Text.chr (128 + N.land u 63)
   else if u <? 65536 then
     Text.chr (224 + N.shiftr u 12) +:+ Text.chr (128 + N.land (N.shiftr u 6) 63)
     +:+ Text.chr (128 + N.land u 63)
   else
     Text.chr (240 + N.shiftr u 18) +:+ Text.chr (128 + N.land (N.shiftr u 12) 63)
     +:+ Text.chr (128 + N.land (N.shiftr u 6) 63) +:+ Text.chr (128 + N.land u 63))%N.

(** BACKSLASH: the one-letter escapes. *)
Definition simple_escape (esc : ascii) : option string :=
  if Ascii.eqb esc quotation_mark then Some (String quotation_mark EmptyString)
  else if Ascii.eqb esc backslash then Some (String backslash EmptyString)
  else if Ascii.eqb esc "/" then Some "/"%string
  else if Ascii.eqb esc "b" then Some (Text.chr 8)
  else if Ascii.eqb esc "f" then Some (Text.chr 12)
  else if Ascii.eqb esc "n" then Some (Text.chr 10)
  else if Ascii.eqb esc "r" then Some (Text.chr 13)
  else if Ascii.eqb esc "t" then Some (Text.chr 9)
  else None.

Definition prepend (chunk : string) (r : option (string * string)) : option (string * string) :=
  match r with
  | Some (content, rest) => Some (chunk +:+ content, rest)
  | None => None
  end.

(** [py_scanstring(s, end, strict=True)], started after the opening
    quotation mark: the decoded content and the text after the closing
    quotation mark. *)
Fixpoint scanstring (s : string) : option (string * string) :=
  match s with
  | EmptyString => None
  | String c r0 =>
      if Ascii.eqb c quotation_mark then Some (EmptyString, r0)
      else if Ascii.eqb c backslash then
        match r0 with
        | EmptyString => None
        | String esc r1 =>
            if Ascii.eqb esc "u" then
              match r1 with
              | String h1 (String h2 (String h3 (String h4 r2))) =>
                  match hex4 h1 h2 h3 h4 with
                  | None => None
                  | Some uni =>
                      match r2 with
                      | String b (String u r3) =>
                          if ((55296 <=? uni) && (uni <=? 56319))%N
                             && Ascii.eqb b backslash && Ascii.eqb u "u" then
                            match r3 with
                            | String l1 (String l2 (String l3 (String l4 r4))) =>
                                match hex4 l1 l2 l3 l4 with
                                | None => None
                                | Some uni2 =>
                                    if ((56320 <=? uni2) && (uni2 <=? 57343))%N then
                                      prepend
                                        (chr_utf8 (65536 + N.lor (N.shiftl (uni - 55296) 10)
                                                                 (uni2 - 56320))%N)
                                        (scanstring r4)
                                    else prepend (chr_utf8 uni) (scanstring r2)
                                end
                            | _ => None
                            end
                          else prepend (chr_utf8 uni) (scanstring r2)
                      | _ => prepend (chr_utf8 uni) (scanstring r2)
                      end
                  end
              | _ => None
              end
            else
              match simple_escape esc with
              | Some char => prepend char (scanstring r1)
              | None => None
              end
        end
      else if (N_of_ascii c <? 32)%N then None
      else prepend (String c EmptyString) (scanstring r0)
  end.

(** NUMBER_RE matched at the start of [s], one group at a time: an
    integer part (an optional minus sign, then either a single zero or
    a nonzero digit and further digits), an optional fraction (a dot and
    at least one digit) and an optional exponent (e or E, an optional
    sign, at least one digit).  Each function returns its group and the
    text after it; an absent optional group is the empty string. *)
Definition match_integer (s : string) : option (string * string) :=
  let '(sign, s1) :=
    match s with
    | String c r => if Ascii.eqb c "-" then ("-"%string, r) else (EmptyString, s)
    | EmptyString => (EmptyString, s)
    end in
  match s1 with
  | String d r =>
      if Ascii.eqb d "0" then Some (sign +:+ "0", r)
      else if is_digit d then
        let '(ds, r') := span_digits r in Some (sign +:+ String d ds, r')
      else None
  | EmptyString => None
  end.

Definition match_frac (s : string) : string * string :=
  match s with
  | String c r =>
      if Ascii.eqb c "." then
        match span_digits r with
        | (EmptyString, _) => (EmptyString, s)
        | (ds, r') => (String c ds, r')
        end
      else (EmptyString, s)
  | EmptyString => (EmptyString, s)
  end.

Definition match_exp (s : string) : string * string :=
  match s with
  | String e r =>
      if Ascii.eqb e "e" || Ascii.eqb e "E" then
        let '(sign, r1) :=
          match r with
          | String c r' =>
              if Ascii.eqb c "-" || Ascii.eqb c "+" then (String c EmptyString, r')
              else (EmptyString, r)
          | EmptyString => (EmptyString, r)
          end in
        match span_digits r1 with
        | (EmptyString, _) => (EmptyString, s)
        | (ds, r2) => (String e (sign +:+ ds), r2)
        end
      else (EmptyString, s)
  | EmptyString => (EmptyString, s)
  end.

(** [int(integer)] for the first group of NUMBER_RE. *)
Definition parse_int (integer : string) : Z :=
  match integer with
  | String c r => if Ascii.eqb c "-" then - int_of_digits 0 r else int_of_digits 0 integer
  | EmptyString => 0
  end.

Definition scan_number (s : string) : option (value * string) :=
  match match_integer s with
  | None => None
  | Some (integer, r) =>
      let '(frac, r1) := match_frac r in
      let '(exp, r2) := match_exp r1 in
      match frac, exp with
      | EmptyString, EmptyString => Some (JInt (parse_int integer), r2)
      | _, _ => Some (JFloat (integer +:+ frac +:+ exp), r2)
      end
  end.

(** [dict(pairs)]: a repeated key keeps its first position and takes
    the last value. *)
Fixpoint dict_set (k : string) (v : value) (d : list (string * value)) : list (string * value) :=
  match d with
  | [] => [(k, v)]
  | (k', v') :: d' => if String.eqb k' k then (k', v) :: d' else (k', v') :: dict_set k v d'
  end.

Definition dict (pairs : list (string * value)) : list (string * value) :=
  fold_left (fun d kv => dict_set kv.1 kv.2 d) pairs [].

(** *** The scanner: [scan_once], [JSONObject], [JSONArray] *)

Definition scan_literal (s : string) : scanned value :=
  match strip_prefix "null" s with
  | Some r => Done JNull r
  | None =>
  match strip_prefix "true" s with
  | Some r => Done (JBool true) r
  | None =>
  match strip_prefix "false" s with
  | Some r => Done (JBool false) r
  | None =>
  match scan_number s with
  | Some (v, r) => Done v r
  | None =>
  match strip_prefix "NaN" s with
  | Some r => Done (JConst "NaN") r
  | None =>
  match strip_prefix "Infinity" s with
  | Some r => Done (JConst "Infinity") r
  | None =>
  match strip_prefix "-Infinity" s with
  | Some r => Done (JConst "-Infinity") r
  | None => Malformed
  end end end end end end end.

Fixpoint scan_once (fuel : nat) (s : string) : scanned value :=
  match fuel with
  | O => NoFuel
  | S fuel =>
      match s with
      | EmptyString => Malformed
      | String c r =>
          if Ascii.eqb c quotation_mark then
            match scanstring r with
            | Some (content, r') => Done (JStr content) r'
            | None => Malformed
            end
          else if Ascii.eqb c "{" then
            match skip_ws r with
            | String c1 r1 =>
                if Ascii.eqb c1 "}" then Done (JObj []) r1
                else if Ascii.eqb c1 quotation_mark then
                  match object_pairs fuel r1 with
                  | Done pairs r' => Done (JObj (dict pairs)) r'
                  | Malformed => Malformed
                  | NoFuel => NoFuel
                  end
                else Malformed
            | EmptyString => Malformed
            end
          else if Ascii.eqb c "[" then
            match skip_ws r with
            | String c1 r1 =>
                if Ascii.eqb c1 "]" then Done (JArr []) r1
                else
                  match array_items fuel (skip_ws r) with
                  | Done items r' => Done (JArr items) r'
                  | Malformed => Malformed
                  | NoFuel => NoFuel
                  end
            | EmptyString => Malformed
            end
          else scan_literal s
      end
  end

(** The loop of [JSONObject], started after the opening quotation mark
    of a key. *)
with object_pairs (fuel : nat) (s : string) : scanned (list (string * value)) :=
  match fuel with
  | O => NoFuel
  | S fuel =>
      match scanstring s with
      | None => Malformed
      | Some (key, r) =>
          match skip_ws r with
          | String c r1 =>
              if Ascii.eqb c ":" then
                match scan_once fuel (skip_ws r1) with
                | Done v r2 =>
                    match skip_ws r2 with
                    | String c2 r3 =>
                        if Ascii.eqb c2 "}" then Done [(key, v)] r3
                        else if Ascii.eqb c2 "," then
                          match skip_ws r3 with
                          | String c3 r4 =>
                              if Ascii.eqb c3 quotation_mark then
                                match object_pairs fuel r4 with
                                | Done more r5 => Done ((key, v) :: more) r5
                                | Malformed => Malformed
                                | NoFuel => NoFuel
                                end
                              else Malformed
                          | EmptyString => Malformed
                          end
                        else Malformed
                    | EmptyString => Malformed
                    end
                | Malformed => Malformed
                | NoFuel => NoFuel
                end
              else Malformed
          | EmptyString => Malformed
          end
      end
  end

(** The loop of [JSONArray], started at the first character of an item. *)
with array_items (fuel : nat) (s : string) : scanned (list value) :=
  match fuel with
  | O => NoFuel
  | S fuel =>
      match scan_once fuel s with
      | Done v r =>
          match skip_ws r with
          | String c r1 =>
              if Ascii.eqb c "]" then Done [v] r1
              else if Ascii.eqb c "," then
                match array_items fuel (skip_ws r1) with
                | Done more r2 => Done (v :: more) r2
                | Malformed => Malformed
                | NoFuel => NoFuel
                end
              else Malformed
          | EmptyString => Malformed
          end
      | Malformed => Malformed
      | NoFuel => NoFuel
      end
  end.

(** Fuel for a text: every nested call is preceded by the consumption
    of a character at least every second call. *)
Definition fuel_for (s : string) : nat := S (2 * String.length s).

(** [JSONDecoder.decode]: one value between optional white space, and
    nothing else; [None] stands for [JSONDecodeError]. *)
Definition decode (s : string) : option value :=
  match scan_once (fuel_for s) (skip_ws s) with
  | Done v r =>
      match skip_ws r with
      | EmptyString => Some v
      | String _ _ => None
      end
  | Malformed => None
  | NoFuel => None
  end.

Definition loads (s : string) : option value := decode s.

(** *** The encoder *)

(** ESCAPE_DCT of [encode_basestring]: the characters replaced when
    [ensure_ascii] is false. *)
Definition escape_char (c : ascii) : string :=
  if Ascii.eqb c backslash then String backslash (String backslash EmptyString)
  else if Ascii.eqb c quotation_mark then String backslash (String quotation_mark EmptyString)
  else if Ascii.eqb c "008" then String backslash "b"
  else if Ascii.eqb c "012" then String backslash "f"
  else if Ascii.eqb c "010" then String backslash "n"
  else if Ascii.eqb c "013" then String backslash "r"
  else if Ascii.eqb c "009" then String backslash "t"
  else if (N_of_ascii c <? 32)%N then
    String backslash
      ("u00" +:+ String (Text.hex_digit Text.lower_hex (N.shiftr (N_of_ascii c) 4))
                   (String (Text.hex_digit Text.lower_hex (N.land (N_of_ascii c) 15)) EmptyString))
  else String c EmptyString.

Fixpoint escape (s : string) : string :=
  match s with
  | EmptyString => EmptyString
  | String c rest => escape_char c +:+ escape rest
  end.

Definition encode_basestring (s : string) : string :=
  String quotation_mark (escape s +:+ String quotation_mark EmptyString).

Fixpoint spaces (n : nat) : string :=
  match n with
  | O => EmptyString
  | S n => String " " (spaces n)
  end.

Section Encoder.

(** The text written for the float read from a literal. *)
Variable floatstr : string -> string.
(** The [indent] argument of [dumps]. *)
Variable indent : nat.

Definition newline_indent (level : nat) : string :=
  String LF (spaces (indent * level)).

(** [_iterencode(o, level)] with [item_separator = ','] and
    [key_separator = ': '], the separators [dumps] chooses when an
    indent is given. *)
Fixpoint iterencode (level : nat) (o : value) : string :=
  match o with
  | JNull => "null"
  | JBool true => "true"
  | JBool false => "false"
  | JInt n => Text.str_of_int n
  | JFloat literal => floatstr literal
  | JConst name => name
  | JStr s => encode_basestring s
  | JArr [] => "[]"
  | JArr items =>
      "[" +:+ newline_indent (S level)
      +:+ Text.join ("," +:+ newline_indent (S level))
            (List.map (iterencode (S level)) items)
      +:+ newline_indent level +:+ "]"
  | JObj [] => "{}"
  | JObj pairs =>
      "{" +:+ newline_indent (S level)
      +:+ Text.join ("," +:+ newline_indent (S level))
            (List.map (fun kv => let '(k, v) := kv in
                                 encode_basestring k +:+ ": " +:+ iterencode (S level) v)
               pairs)
      +:+ newline_indent level +:+ "}"
  end.

Definition dumps (o : value) : string := iterencode 0 o.

End Encoder.

End Json.

(** ** The class [Requisicoes] *)

Module Requisicoes.

(** *** What the class sees of [urllib.error], [urllib.request] and [time] *)

(** The exceptions an attempt can raise.  In [urllib.error] the class
    [HTTPError] is declared as a subclass of [URLError]; [OtherError]
    stands for every exception of a class outside that hierarchy (a
    [ValueError] for a URL without scheme, a [UnicodeDecodeError] raised
    by [decode], a timeout while reading the body, ...). *)
Inductive exception : Type :=
| URLError (reason : string)
| HTTPError (code : Z) (reason : string)
| OtherError (description : string).

(** [isinstance(e, urllib.error.URLError)]: true for the subclass too. *)
Definition isinstance_URLError (e : exception) : bool :=
  match e with
  | URLError _ => true
  | HTTPError _ _ => true
  | OtherError _ => false
  end.

Definition isinstance_HTTPError (e : exception) : bool :=
  match e with
  | HTTPError _ _ => true
  | _ => false
  end.

(** The clause [except (urllib.error.HTTPError, urllib.error.URLError)]. *)
Definition caught (e : exception) : bool :=
  isinstance_HTTPError e || isinstance_URLError e.

(** [e.reason] as the f-string prints it; read only from an exception
    the handler caught. *)
Definition reason_of (e : exception) : string :=
  match e with
  | URLError reason => reason
  | HTTPError _ reason => reason
  | OtherError _ => EmptyString
  end.

(** [e.code], an attribute of [HTTPError] only; the default is never
    formatted, the handler reads [code] only from an [HTTPError]. *)
Definition code_of (e : exception) : Z :=
  match e with
  | HTTPError code _ => code
  | _ => 0
  end.

(** What [opener.open(req, timeout=timeout)] followed by
    [resposta.read().decode('utf-8')] does in one attempt. *)
Inductive response : Type :=
| Body (dados : string)
| Raises (e : exception).

(** The calls a run makes into [urllib.request] and [time]:
    [build_opener], with the [ProxyHandler] when there is one;
    [opener.open(Request(url, headers=headers), timeout=timeout)], an
    attempt; and [time.sleep(seconds)]. *)
Inductive event : Type :=
| BuildOpener (proxy_handler : option (gmap string string))
| Open (proxy_handler : option (gmap string string))
       (url : string) (headers : gmap string string) (timeout : Z)
| Sleep (seconds : Z).

(** The class attribute [cache] and the calls made so far, oldest first. *)
Record state : Type := {
  cache : gmap string string;
  trace : list event
}.

Definition log (e : event) (st : state) : state :=
  {| cache := cache st; trace := trace st ++ [e] |}.

Definition store (url resposta : string) (st : state) : state :=
  {| cache := <[url := resposta]> (cache st); trace := trace st |}.

(** The [return] statement a call left through. *)
Inductive exit : Type :=
| FromCache      (* return Requisicoes.cache[url] *)
| FromResponse   (* return resposta_formatada *)
| FromError      (* return erro_msg *)
| FromFallback.  (* the return after the loop *)

Inductive result : Type :=
| Returned (site : exit) (value : string)
| Raised (e : exception).

(** A finished call: its result, the caller's [headers] dictionary as
    the call leaves it ([None] when the caller passed none), and the
    state. *)
Record outcome : Type := {
  result_of : result;
  headers_after : option (gmap string string);
  state_after : state
}.

(** Truth value of an optional dictionary: [None] and the empty
    dictionary are false. *)
Definition truthy (d : option (gmap string string)) : bool :=
  match d with
  | Some m => bool_decide (m ≠ ∅)
  | None => false
  end.

(** *** The static methods *)

(** Lines 78-96.  [if params:] holds for a dictionary with at least one
    item. *)
Definition _montar_url_com_params (url : string) (params : option (list (string * string))) : string :=
  match params with
  | Some (item :: items) =>
      let query_string := UrlParse.urlencode (item :: items) in
      if Text.contains "?" url then url +:+ "&" +:+ query_string
      else url +:+ "?" +:+ query_string
  | _ => url
  end.

(** Lines 98-115, for a descriptor whose values are strings. *)
Definition _adicionar_autenticacao (auth : gmap string string) : gmap string string :=
  let headers : gmap string string := ∅ in
  match auth !! "token" with
  | Some token => <["Authorization" := "Bearer " +:+ token]> headers
  | None =>
      match auth !! "username", auth !! "password" with
      | Some username, Some password =>
          let base64_credentials := Base64.b64encode (username +:+ ":" +:+ password) in
          <["Authorization" := "Basic " +:+ base64_credentials]> headers
      | _, _ => headers
      end
  end.

(** Line 69, the conditional expression that formats a caught exception. *)
Definition erro_msg (e : exception) : string :=
  if isinstance_URLError e then "Erro: " +:+ reason_of e
  else "Erro HTTP: " +:+ Text.str_of_int (code_of e) +:+ " - " +:+ reason_of e.

(** Line 76. *)
Definition fallback_msg : string := "Erro: Número máximo de tentativas atingido.".

Section WithEnvironment.

(** The text [json.dumps] writes for a float. *)
Variable floatstr : string -> string.

(** Lines 117-132. *)
Definition _formatar_resposta (resposta : string) : string :=
  match Json.loads resposta with
  | Some dados => Json.dumps floatstr 4 dados
  | None => resposta
  end.

(** The network: what the attempt made while the counter has the
    value [tentativa] meets. *)
Variable net : Z -> response.

Section Loop.

Variables (url : string) (headers : gmap string string) (timeout retries : Z).
Variable proxy_handler : option (gmap string string).

(** Lines 56-76: the [while tentativa < retries] loop and the return
    after it.  An exception the handler does not catch leaves the
    function at once. *)
Equations? retry_loop (tentativa : Z) (st : state) : result * state
  by wf (Z.to_nat (retries - tentativa)) lt :=
  retry_loop tentativa st with Z_lt_dec tentativa retries => {
    | left _ :=
        let st := log (Open proxy_handler url headers timeout) st in
        match net tentativa with
        | Body dados =>
            let resposta_formatada := _formatar_resposta dados in
            (Returned FromResponse resposta_formatada, store url resposta_formatada st)
        | Raises e =>
            if caught e then
              if tentativa =? retries - 1 then (Returned FromError (erro_msg e), st)
              else retry_loop (tentativa + 1) (log (Sleep 2) st)
            else (Raised e, st)
        end
    | right _ := (Returned FromFallback fallback_msg, st) }.
Proof. lia. Qed.

End Loop.

(** Lines 13-76.  [headers.update(d)] is [d ∪ headers], the entries of
    [d] taking precedence; a [ProxyHandler] object is always true, so the
    opener gets the proxies exactly when [proxy] is a non-empty
    dictionary. *)
Definition fazer_get (url : string) (headers : option (gmap string string))
    (params : option (list (string * string))) (timeout retries : Z)
    (use_cache : bool) (proxy auth : option (gmap string string))
    (st : state) : outcome :=
  let url :=
    match params with
    | Some (_ :: _) => _montar_url_com_params url params
    | _ => url
    end in
  match (if use_cache then cache st !! url else None) with
  | Some cached =>
      {| result_of := Returned FromCache cached;
         headers_after := headers;
         state_after := st |}
  | None =>
      let headers' := default ∅ headers in
      let headers' :=
        if truthy auth then _adicionar_autenticacao (default ∅ auth) ∪ headers'
        else headers' in
      let proxy_handler := if truthy proxy then proxy else None in
      let st := log (BuildOpener proxy_handler) st in
      let '(r, st) := retry_loop url headers' timeout retries proxy_handler 0 st in
      {| result_of := r;
         headers_after := match headers with Some _ => Some headers' | None => None end;
         state_after := st |}
  end.

End WithEnvironment.

(** *** Vocabulary of the properties *)

(** An attempt fails when it raises an exception the handler catches: a
    transport-level failure or an HTTP error status. *)
Definition fails (r : response) : bool :=
  match r with
  | Raises e => caught e
  | Body _ => false
  end.


(** The calls of [n] attempts with a two-second sleep between
    consecutive ones. *)
Fixpoint spaced_attempts (n : nat) (attempt : event) : list event :=
  match n with
  | O => []
  | S O => [attempt]
  | S n' => attempt :: Sleep 2 :: spaced_attempts n' attempt
  end.

(** The number of network attempts in a trace. *)
Definition is_attempt (ev : event) : bool :=
  match ev with
  | Open _ _ _ _ => true
  | _ => false
  end.

Definition attempts_in (t : list event) : nat :=
  length (List.filter is_attempt t).

End Requisicoes.

(** ** Reading encoded text back

    What the properties of the encoders are stated with: the inverse of
    [quote_plus] and a test on the characters of a text. *)

Module Reading.

(** [urllib.parse.unquote_plus]: a plus sign is a space, a percent sign
    followed by two hexadecimal digits is the byte they write, any other
    character is itself. *)
Fixpoint unquote_plus (s : string) : string :=
  match s with
  | EmptyString => EmptyString
  | String c rest =>
      if Ascii.eqb c "+" then String " " (unquote_plus rest)
      else if Ascii.eqb c "%" then
        match rest with
        | String h1 (String h2 rest') =>
            match Json.hex_value h1, Json.hex_value h2 with
            | Some x, Some y => String (ascii_of_N (16 * x + y)) (unquote_plus rest')
            | _, _ => String c (unquote_plus rest)
            end
        | _ => String c (unquote_plus rest)
        end
      else String c (unquote_plus rest)
  end.

(** Every character of the text passes the test. *)
Fixpoint all_chars (p : ascii -> bool) (s : string) : bool :=
  match s with
  | EmptyString => true
  | String c rest => p c && all_chars p rest
  end.

(** A character of the base64 alphabet, or the padding sign. *)
Definition base64_char (c : ascii) : bool :=
  Text.contains c Base64.alphabet || Ascii.eqb c "=".

(** The place of a character in the base64 alphabet. *)
Fixpoint find (c : ascii) (s : string) : N :=
  match s with
  | EmptyString => 0%N
  | String x rest => if Ascii.eqb x c then 0%N else N.succ (find c rest)
  end.

Definition index (c : ascii) : N := find c Base64.alphabet.

(** The three bytes that four base64 digits write. *)
Definition byte1 (c1 c2 : ascii) : ascii :=
  ascii_of_N (N.lor (N.shiftl (index c1) 2) (N.shiftr (index c2) 4)).

Definition byte2 (c2 c3 : ascii) : ascii :=
  ascii_of_N (N.lor (N.shiftl (N.land (index c2) 15) 4) (N.shiftr (index c3) 2)).

Definition byte3 (c3 c4 : ascii) : ascii :=
  ascii_of_N (N.lor (N.shiftl (N.land (index c3) 3) 6) (index c4)).

(** [base64.b64decode] on padded text: every four characters give three
    bytes, and a group that ends in one or two padding signs gives two
    bytes or one and ends the text. *)
Fixpoint b64decode (s : string) : string :=
  match s with
  | String c1 (String c2 (String c3 (String c4 rest))) =>
      if Ascii.eqb c3 "=" then String (byte1 c1 c2) EmptyString
      else if Ascii.eqb c4 "=" then String (byte1 c1 c2) (String (byte2 c2 c3) EmptyString)
      else String (byte1 c1 c2) (String (byte2 c2 c3) (String (byte3 c3 c4) (b64decode rest)))
  | _ => EmptyString
  end.

End Reading.

(** ** Values that [json.loads] returns *)

Module Values.

(** No float anywhere in the value. *)
Fixpoint float_free (v : Json.value) : bool :=
  match v with
  | Json.JFloat _ => false
  | Json.JArr items => forallb float_free items
  | Json.JObj pairs => forallb (fun kv => let '(_, x) := kv in float_free x) pairs
  | _ => true
  end.

(** What holds of every value the scanner builds: a constant is one of
    the three names of the scanner, and the keys of an object are
    distinct. *)
Inductive well_formed : Json.value -> Prop :=
| wf_null : well_formed Json.JNull
| wf_bool (b : bool) : well_formed (Json.JBool b)
| wf_int (n : Z) : well_formed (Json.JInt n)
| wf_float (literal : string) : well_formed (Json.JFloat literal)
| wf_const (name : string) :
    name = "NaN"%string \/ name = "Infinity"%string \/ name = "-Infinity"%string ->
    well_formed (Json.JConst name)
| wf_str (s : string) : well_formed (Json.JStr s)
| wf_arr (items : list Json.value) :
    Forall well_formed items -> well_formed (Json.JArr items)
| wf_obj (pairs : list (string * Json.value)) :
    NoDup (map fst pairs) ->
    Forall (fun kv => well_formed (snd kv)) pairs ->
    well_formed (Json.JObj pairs).

(** The text after a value ends it: the empty text, or a character that
    cannot continue a number. *)
Definition delimited (rest : string) : bool :=
  match rest with
  | EmptyString => true
  | String c _ =>
      negb (Json.is_digit c || Ascii.eqb c "." || Ascii.eqb c "e" || Ascii.eqb c "E")
  end.

End Values.

(** * Properties of the static helpers *)

(** [contains] is membership of the character in the text. *)
Lemma contains_spec (c : ascii) (s : string) :
  Text.contains c s = true <-> exists before after, s = before +:+ String c after.
Proof.
  induction s as [|a s IH]; simpl.
  - split; [discriminate|]. intros ([|] & after & H); discriminate.
  - destruct (Ascii.eqb_spec a c) as [-> | Hne].
    + split; [|done]. intros _. by exists EmptyString, s.
    + rewrite IH. split.
      * intros (before & after & ->). by exists (String a before), after.
      * intros ([|b before] & after & H); simpl in H; inversion H; subst; [done|].
        by exists before, after.
Qed.

(** The test vectors of RFC 4648. *)
Example b64encode_vectors :
  map Base64.b64encode [""; "f"; "fo"; "foo"; "foob"; "fooba"; "foobar"]%string =
  [""; "Zg=="; "Zm8="; "Zm9v"; "Zm9vYg=="; "Zm9vYmE="; "Zm9vYmFy"]%string.
Proof. reflexivity. Qed.

Example urlencode_sample :
  UrlParse.urlencode [("a b", "c&d/é~"); ("k", "v")]%string = "a+b=c%26d%2F%C3%A9~&k=v"%string.
Proof. reflexivity. Qed.

(** C7: the header [_adicionar_autenticacao] builds.  A token gives the
    bearer form, whatever else the descriptor holds; without a token, a
    user name and a password give the basic form over the base64 of
    [username:password]; anything else gives no header.  The last two
    parts are the descriptors the specification names. *)
Theorem adicionar_autenticacao_header (auth : gmap string string) :
  (forall token,
     auth !! "token"%string = Some token ->
     Requisicoes._adicionar_autenticacao auth =
     {[ "Authorization"%string := ("Bearer " +:+ token)%string ]}) /\
  (forall username password,
     auth !! "token"%string = None ->
     auth !! "username"%string = Some username ->
     auth !! "password"%string = Some password ->
     Requisicoes._adicionar_autenticacao auth =
     {[ "Authorization"%string :=
          ("Basic " +:+ Base64.b64encode (username +:+ ":" +:+ password))%string ]}) /\
  (auth !! "token"%string = None ->
   auth !! "username"%string = None \/ auth !! "password"%string = None ->
   Requisicoes._adicionar_autenticacao auth = ∅) /\
  Requisicoes._adicionar_autenticacao {[ "token"%string := "abc"%string ]} =
    {[ "Authorization"%string := "Bearer abc"%string ]} /\
  Requisicoes._adicionar_autenticacao
    {[ "username"%string := "u"%string; "password"%string := "p"%string ]} =
    {[ "Authorization"%string := "Basic dTpw"%string ]}.
Proof.
  unfold Requisicoes._adicionar_autenticacao.
  split; [| split; [| split; [| split]]].
  - intros token ->. apply insert_empty.
  - intros username password -> -> ->. apply insert_empty.
  - intros -> [-> | ->]; [done|]. by destruct (auth !! "username"%string).
  - reflexivity.
  - reflexivity.
Qed.

(** C8: the URL [_montar_url_com_params] assembles.  Non-empty
    parameters are appended after a question mark, or after an ampersand
    when the URL has a question mark already; empty or absent parameters
    leave the URL as it is. *)
Theorem montar_url_com_params_query (url : string) (params : list (string * string)) :
  (params <> [] ->
   Text.contains "?" url = false ->
   Requisicoes._montar_url_com_params url (Some params) =
   (url +:+ "?" +:+ UrlParse.urlencode params)%string) /\
  (params <> [] ->
   Text.contains "?" url = true ->
   Requisicoes._montar_url_com_params url (Some params) =
   (url +:+ "&" +:+ UrlParse.urlencode params)%string) /\
  Requisicoes._montar_url_com_params url (Some []) = url /\
  Requisicoes._montar_url_com_params url None = url.
Proof.
  unfold Requisicoes._montar_url_com_params.
  repeat split; try (destruct params as [|item items]; [done|]); by intros _ ->.
Qed.

Example montar_url_com_params_sample :
  Requisicoes._montar_url_com_params "http://example.com/busca"
    (Some [("q", "são paulo"); ("página", "2")])%string =
    "http://example.com/busca?q=s%C3%A3o+paulo&p%C3%A1gina=2"%string /\
  Requisicoes._montar_url_com_params "http://example.com/busca?lang=pt"
    (Some [("q", "a&b")])%string =
    "http://example.com/busca?lang=pt&q=a%26b"%string.
Proof. split; reflexivity. Qed.

(** * The JSON scanner is well defined *)

Section Scanner.

Import Json.

Lemma skip_ws_length (s : string) : (String.length (skip_ws s) <= String.length s)%nat.
Proof.
  induction s as [|c s IH]; simpl; [lia|].
  destruct (is_ws c); simpl; lia.
Qed.

Lemma strip_prefix_length (p s r : string) :
  strip_prefix p s = Some r -> String.length s = (String.length p + String.length r)%nat.
Proof.
  revert s. induction p as [|a p IH]; intros s H; simpl in H.
  - by inversion H.
  - destruct s as [|b s]; [done|].
    destruct (Ascii.eqb a b); [|done]. simpl. rewrite (IH s H). reflexivity.
Qed.

Lemma span_digits_length (s ds r : string) :
  span_digits s = (ds, r) -> (String.length r <= String.length s)%nat.
Proof.
  revert ds r. induction s as [|c s IH]; intros ds r H; simpl in H.
  - inversion H. simpl. lia.
  - destruct (is_digit c).
    + destruct (span_digits s) as [ds' r'] eqn:E. inversion H; subst.
      specialize (IH _ _ eq_refl). simpl. lia.
    + inversion H. simpl. lia.
Qed.

Lemma prepend_Some (chunk : string) (x : option (string * string)) (content rest : string) :
  prepend chunk x = Some (content, rest) ->
  exists content', x = Some (content', rest).
Proof.
  destruct x as [[content' rest']|]; [|done].
  intros H. inversion H. by exists content'.
Qed.

(** A scanned string ends after its closing quotation mark. *)
Lemma scanstring_length (s content rest : string) :
  scanstring s = Some (content, rest) -> (String.length rest < String.length s)%nat.
Proof.
  remember (String.length s) as n eqn:Hn.
  revert s content rest Hn.
  induction n as [n IH] using lt_wf_ind.
  intros s content rest Hn H.
  assert (forall s' chunk,
            (String.length s' < n)%nat ->
            prepend chunk (scanstring s') = Some (content, rest) ->
            (String.length rest < String.length s')%nat) as Hrec.
  { intros s' chunk Hlt Hp. apply prepend_Some in Hp as (content' & Hp).
    exact (IH _ Hlt s' content' rest eq_refl Hp). }
  destruct s as [|c r0]; [done|]. simpl in H, Hn.
  destruct (Ascii.eqb c quotation_mark).
  { inversion H; subst. lia. }
  destruct (Ascii.eqb c backslash).
  - destruct r0 as [|esc r1]; [done|]. simpl in Hn.
    destruct (Ascii.eqb esc "u").
    + destruct r1 as [|h1 [|h2 [|h3 [|h4 r2]]]]; try done. simpl in Hn.
      destruct (hex4 h1 h2 h3 h4) as [uni|]; [|done].
      destruct r2 as [|b [|u r3]].
      * apply Hrec in H; simpl in *; lia.
      * apply Hrec in H; simpl in *; lia.
      * destruct (_ && _ && _).
        -- destruct r3 as [|l1 [|l2 [|l3 [|l4 r4]]]]; try done.
           destruct (hex4 l1 l2 l3 l4) as [uni2|]; [|done].
           destruct (_ && _); apply Hrec in H; simpl in *; lia.
        -- apply Hrec in H; simpl in *; lia.
    + destruct (simple_escape esc) as [char|]; [|done].
      apply Hrec in H; simpl in *; lia.
  - destruct (N_of_ascii c <? 32)%N; [done|].
    apply Hrec in H; simpl in *; lia.
Qed.

Lemma match_integer_length (s integer r : string) :
  match_integer s = Some (integer, r) -> (String.length r < String.length s)%nat.
Proof.
  unfold match_integer. intros H.
  destruct s as [|c s']; [done|].
  assert (forall s1 : string,
            (String.length s1 <= String.length (String c s'))%nat ->
            match s1 with
            | String d r0 =>
                if Ascii.eqb d "0" then Some (integer, r0)
                else if is_digit d then
                  let '(ds, r') := span_digits r0 in Some (integer, r')
                else None
            | EmptyString => None
            end = Some (integer, r) ->
            (String.length r < String.length (String c s'))%nat) as Haux.
  { intros [|d r0] Hle H1; [done|]. simpl in Hle.
    destruct (Ascii.eqb d "0"); [inversion H1; subst; simpl; lia|].
    destruct (is_digit d); [|done].
    destruct (span_digits r0) as [ds r'] eqn:E. inversion H1; subst.
    apply span_digits_length in E. simpl. lia. }
  destruct (Ascii.eqb c "-").
  - apply (Haux s'); [simpl; lia|].
    destruct s' as [|d r0]; [done|].
    destruct (Ascii.eqb d "0"); [by inversion H|].
    destruct (is_digit d); [|done].
    destruct (span_digits r0). by inversion H.
  - apply (Haux (String c s')); [lia|].
    destruct (Ascii.eqb c "0"); [by inversion H|].
    destruct (is_digit c); [|done].
    destruct (span_digits s'). by inversion H.
Qed.

Lemma match_frac_length (s frac r : string) :
  match_frac s = (frac, r) -> (String.length r <= String.length s)%nat.
Proof.
  unfold match_frac. intros H.
  destruct s as [|c s']; [by inversion H|].
  destruct (Ascii.eqb c "."); [|by inversion H].
  destruct (span_digits s') as [ds r'] eqn:E. apply span_digits_length in E.
  destruct ds; inversion H; subst; simpl; lia.
Qed.

Lemma match_exp_length (s exp r : string) :
  match_exp s = (exp, r) -> (String.length r <= String.length s)%nat.
Proof.
  unfold match_exp. intros H.
  destruct s as [|e s']; [by inversion H|].
  destruct (_ || _); [|by inversion H].
  destruct s' as [|c r'].
  - simpl in H. by inversion H.
  - destruct (_ || _).
    + destruct (span_digits r') as [ds r2] eqn:E. apply span_digits_length in E.
      destruct ds; inversion H; subst; simpl; lia.
    + destruct (span_digits (String c r')) as [ds r2] eqn:E. apply span_digits_length in E.
      destruct ds; inversion H; subst; simpl in *; lia.
Qed.

Lemma scan_number_length (s : string) (v : value) (r : string) :
  scan_number s = Some (v, r) -> (String.length r < String.length s)%nat.
Proof.
  unfold scan_number. intros H.
  destruct (match_integer s) as [[integer r0]|] eqn:E0; [|done].
  destruct (match_frac r0) as [frac r1] eqn:E1.
  destruct (match_exp r1) as [exp r2] eqn:E2.
  apply match_integer_length in E0. apply match_frac_length in E1.
  apply match_exp_length in E2.
  assert (r = r2) as -> by (destruct frac, exp; by inversion H).
  lia.
Qed.

Lemma scan_literal_length (s : string) (v : value) (r : string) :
  scan_literal s = Done v r -> (String.length r < String.length s)%nat.
Proof.
  unfold scan_literal. intros H.
  repeat match type of H with
         | match strip_prefix ?p s with _ => _ end = _ =>
             let E := fresh "E" in
             destruct (strip_prefix p s) eqn:E;
             [inversion H; subst; apply strip_prefix_length in E; simpl in E; lia|]
         | match scan_number s with _ => _ end = _ =>
             let E := fresh "E" in
             destruct (scan_number s) as [[? ?]|] eqn:E;
             [inversion H; subst; by apply scan_number_length in E|]
         end.
  done.
Qed.

Lemma scan_literal_fuel (s : string) : scan_literal s <> NoFuel.
Proof.
  unfold scan_literal.
  repeat match goal with
         | |- match ?x with _ => _ end <> _ => destruct x as [[? ?]|] || destruct x
         end; done.
Qed.

Lemma skip_ws_cons_length (s : string) (c : ascii) (r : string) :
  skip_ws s = String c r -> (String.length r < String.length s)%nat.
Proof.
  intros H. pose proof (skip_ws_length s) as Hle. rewrite H in Hle. simpl in Hle. lia.
Qed.

(** Gathers what is known about the lengths of the texts in the context. *)
Ltac lengths :=
  repeat match goal with
         | H : skip_ws _ = String _ _ |- _ => apply skip_ws_cons_length in H
         | H : scanstring _ = Some (_, _) |- _ => apply scanstring_length in H
         end;
  repeat match goal with
         | _ : context [skip_ws ?s] |- _ =>
             lazymatch goal with
             | _ : (String.length (skip_ws s) <= String.length s)%nat |- _ => fail
             | _ => pose proof (skip_ws_length s)
             end
         | |- context [skip_ws ?s] =>
             lazymatch goal with
             | _ : (String.length (skip_ws s) <= String.length s)%nat |- _ => fail
             | _ => pose proof (skip_ws_length s)
             end
         end;
  simpl String.length in *.

(** Each scanner consumes at least one character. *)
Lemma scan_progress (fuel : nat) :
  (forall s v r, scan_once fuel s = Done v r -> (String.length r < String.length s)%nat) /\
  (forall s l r, object_pairs fuel s = Done l r -> (String.length r < String.length s)%nat) /\
  (forall s l r, array_items fuel s = Done l r -> (String.length r < String.length s)%nat).
Proof.
  induction fuel as [|fuel (IHv & IHo & IHa)]; [repeat split; intros; discriminate|].
  repeat split.
  - intros s v r H. simpl in H.
    destruct s as [|c s]; [done|].
    destruct (Ascii.eqb c quotation_mark).
    { destruct (scanstring s) as [[content r']|] eqn:E; [|done].
      inversion H; subst. lengths. lia. }
    destruct (Ascii.eqb c "{").
    { destruct (skip_ws s) as [|c1 r1] eqn:E; [done|].
      destruct (Ascii.eqb c1 "}"); [inversion H; subst; lengths; lia|].
      destruct (Ascii.eqb c1 quotation_mark); [|done].
      destruct (object_pairs fuel r1) as [pairs r'| |] eqn:Eo; try done.
      inversion H; subst. apply IHo in Eo. lengths. lia. }
    destruct (Ascii.eqb c "[").
    { destruct (skip_ws s) as [|c1 r1] eqn:E; [done|].
      destruct (Ascii.eqb c1 "]"); [inversion H; subst; lengths; lia|].
      destruct (array_items fuel (String c1 r1)) as [items r'| |] eqn:Ea; try done.
      inversion H; subst. apply IHa in Ea. lengths. lia. }
    by apply scan_literal_length in H.
  - intros s l r H. simpl in H.
    destruct (scanstring s) as [[key r0]|] eqn:Es; [|done].
    destruct (skip_ws r0) as [|c r1] eqn:E0; [done|].
    destruct (Ascii.eqb c ":"); [|done].
    destruct (scan_once fuel (skip_ws r1)) as [v r2| |] eqn:Ev; try done.
    apply IHv in Ev.
    destruct (skip_ws r2) as [|c2 r3] eqn:E2; [done|].
    destruct (Ascii.eqb c2 "}"); [inversion H; subst; lengths; lia|].
    destruct (Ascii.eqb c2 ","); [|done].
    destruct (skip_ws r3) as [|c3 r4] eqn:E3; [done|].
    destruct (Ascii.eqb c3 quotation_mark); [|done].
    destruct (object_pairs fuel r4) as [more r5| |] eqn:Eo; try done.
    inversion H; subst. apply IHo in Eo. lengths. lia.
  - intros s l r H. simpl in H.
    destruct (scan_once fuel s) as [v r0| |] eqn:Ev; try done.
    apply IHv in Ev.
    destruct (skip_ws r0) as [|c r1] eqn:E0; [done|].
    destruct (Ascii.eqb c "]"); [inversion H; subst; lengths; lia|].
    destruct (Ascii.eqb c ","); [|done].
    destruct (array_items fuel (skip_ws r1)) as [more r2| |] eqn:Ea; try done.
    inversion H; subst. apply IHa in Ea. lengths. lia.
Qed.

(** With fuel above twice the length of the text no scanner runs out. *)
Lemma scan_fuel (fuel : nat) :
  (forall s, (2 * String.length s < fuel)%nat -> scan_once fuel s <> NoFuel) /\
  (forall s, (2 * String.length s + 1 < fuel)%nat -> object_pairs fuel s <> NoFuel) /\
  (forall s, (2 * String.length s + 1 < fuel)%nat -> array_items fuel s <> NoFuel).
Proof.
  induction fuel as [|fuel (IHv & IHo & IHa)]; [repeat split; intros; lia|].
  destruct (scan_progress fuel) as (Pv & Po & Pa).
  repeat split.
  - intros s Hf. simpl.
    destruct s as [|c s]; [done|].
    destruct (Ascii.eqb c quotation_mark).
    { by destruct (scanstring s) as [[content r']|]. }
    destruct (Ascii.eqb c "{").
    { destruct (skip_ws s) as [|c1 r1] eqn:E; [done|].
      destruct (Ascii.eqb c1 "}"); [done|].
      destruct (Ascii.eqb c1 quotation_mark); [|done].
      destruct (object_pairs fuel r1) as [pairs r'| |] eqn:Eo; try done.
      apply IHo in Eo; [done|]. lengths. lia. }
    destruct (Ascii.eqb c "[").
    { destruct (skip_ws s) as [|c1 r1] eqn:E; [done|].
      destruct (Ascii.eqb c1 "]"); [done|].
      destruct (array_items fuel (String c1 r1)) as [items r'| |] eqn:Ea; try done.
      apply IHa in Ea; [done|]. lengths. lia. }
    apply scan_literal_fuel.
  - intros s Hf. simpl.
    destruct (scanstring s) as [[key r0]|] eqn:Es; [|done].
    destruct (skip_ws r0) as [|c r1] eqn:E0; [done|].
    destruct (Ascii.eqb c ":"); [|done].
    destruct (scan_once fuel (skip_ws r1)) as [v r2| |] eqn:Ev; try done.
    + pose proof (Pv _ _ _ Ev).
      destruct (skip_ws r2) as [|c2 r3] eqn:E2; [done|].
      destruct (Ascii.eqb c2 "}"); [done|].
      destruct (Ascii.eqb c2 ","); [|done].
      destruct (skip_ws r3) as [|c3 r4] eqn:E3; [done|].
      destruct (Ascii.eqb c3 quotation_mark); [|done].
      destruct (object_pairs fuel r4) as [more r5| |] eqn:Eo; try done.
      apply IHo in Eo; [done|]. lengths. lia.
    + apply IHv in Ev; [done|]. lengths. lia.
  - intros s Hf. simpl.
    destruct (scan_once fuel s) as [v r0| |] eqn:Ev; try done.
    + pose proof (Pv _ _ _ Ev).
      destruct (skip_ws r0) as [|c r1] eqn:E0; [done|].
      destruct (Ascii.eqb c "]"); [done|].
      destruct (Ascii.eqb c ","); [|done].
      destruct (array_items fuel (skip_ws r1)) as [more r2| |] eqn:Ea; try done.
      apply IHa in Ea; [done|]. lengths. lia.
    + apply IHv in Ev; [done|]. lia.
Qed.

(** More fuel does not change what a scanner that finished returns. *)
Lemma scan_stable (fuel : nat) :
  (forall s fuel', (fuel <= fuel')%nat -> scan_once fuel s <> NoFuel ->
                   scan_once fuel' s = scan_once fuel s) /\
  (forall s fuel', (fuel <= fuel')%nat -> object_pairs fuel s <> NoFuel ->
                   object_pairs fuel' s = object_pairs fuel s) /\
  (forall s fuel', (fuel <= fuel')%nat -> array_items fuel s <> NoFuel ->
                   array_items fuel' s = array_items fuel s).
Proof.
  induction fuel as [|fuel (IHv & IHo & IHa)]; [repeat split; intros; done|].
  repeat split.
  - intros s [|fuel'] Hle; [lia|]. simpl.
    destruct s as [|c s]; [done|].
    destruct (Ascii.eqb c quotation_mark); [done|].
    destruct (Ascii.eqb c "{").
    { destruct (skip_ws s) as [|c1 r1]; [done|].
      destruct (Ascii.eqb c1 "}"); [done|].
      destruct (Ascii.eqb c1 quotation_mark); [|done].
      intros H. rewrite (IHo r1 fuel') by (lia || by destruct (object_pairs fuel r1)).
      done. }
    destruct (Ascii.eqb c "["); [|done].
    destruct (skip_ws s) as [|c1 r1]; [done|].
    destruct (Ascii.eqb c1 "]"); [done|].
    intros H.
    rewrite (IHa (String c1 r1) fuel') by (lia || by destruct (array_items fuel (String c1 r1))).
    done.
  - intros s [|fuel'] Hle; [lia|]. simpl.
    destruct (scanstring s) as [[key r0]|]; [|done].
    destruct (skip_ws r0) as [|c r1]; [done|].
    destruct (Ascii.eqb c ":"); [|done].
    intros H.
    rewrite (IHv (skip_ws r1) fuel') by (lia || by destruct (scan_once fuel (skip_ws r1))).
    destruct (scan_once fuel (skip_ws r1)) as [v r2| |]; try done.
    destruct (skip_ws r2) as [|c2 r3]; [done|].
    destruct (Ascii.eqb c2 "}"); [done|].
    destruct (Ascii.eqb c2 ","); [|done].
    destruct (skip_ws r3) as [|c3 r4]; [done|].
    destruct (Ascii.eqb c3 quotation_mark); [|done].
    rewrite (IHo r4 fuel') by (lia || by destruct (object_pairs fuel r4)).
    done.
  - intros s [|fuel'] Hle; [lia|]. simpl.
    intros H.
    rewrite (IHv s fuel') by (lia || by destruct (scan_once fuel s)).
    destruct (scan_once fuel s) as [v r0| |]; try done.
    destruct (skip_ws r0) as [|c r1]; [done|].
    destruct (Ascii.eqb c "]"); [done|].
    destruct (Ascii.eqb c ","); [|done].
    rewrite (IHa (skip_ws r1) fuel') by (lia || by destruct (array_items fuel (skip_ws r1))).
    done.
Qed.

(** [decode] gives its scanner enough fuel: the scan of a text ends,
    with a value or with an error, ... *)
Lemma decode_has_fuel (s : string) : scan_once (fuel_for s) (skip_ws s) <> NoFuel.
Proof.
  apply scan_fuel. unfold fuel_for. pose proof (skip_ws_length s). lia.
Qed.

(** ... and more fuel gives the same outcome. *)
Lemma decode_fuel_irrelevant (s : string) (fuel : nat) :
  (fuel_for s <= fuel)%nat ->
  scan_once fuel (skip_ws s) = scan_once (fuel_for s) (skip_ws s).
Proof.
  intros H. apply scan_stable; [done | apply decode_has_fuel].
Qed.

End Scanner.

(** * Properties of [_formatar_resposta] *)

Example sample_codes :
  map N_of_ascii (list_ascii_of_string (Text.sample "{'a':1}|^")) =
  [123; 34; 97; 34; 58; 49; 125; 10; 92]%N.
Proof. reflexivity. Qed.

(** With [ensure_ascii] false the encoder leaves every byte of a
    non-ASCII character as it is. *)
Lemma escape_char_non_ascii (c : ascii) :
  (128 <= N_of_ascii c)%N -> Json.escape_char c = String c EmptyString.
Proof.
  intros H. unfold Json.escape_char.
  repeat match goal with
         | |- context [Ascii.eqb c ?k] =>
             destruct (Ascii.eqb_spec c k) as [-> | _]; [vm_compute in H; done|]
         end.
  destruct (N.ltb_spec (N_of_ascii c) 32); [lia | reflexivity].
Qed.

(** C9: [_formatar_resposta] returns the text [json.dumps] writes with an
    indent of four and [ensure_ascii] false for the value [json.loads]
    reads, and the input itself when [json.loads] raises; the scan of the
    input always ends in one of the two ways, and bytes of non-ASCII
    characters are written as they are.  The last three parts are sample
    inputs: the two of the specification and one with non-ASCII text. *)
Theorem formatar_resposta_json (floatstr : string -> string) (resposta : string) :
  Json.scan_once (Json.fuel_for resposta) (Json.skip_ws resposta) <> Json.NoFuel /\
  (forall dados,
     Json.loads resposta = Some dados ->
     Requisicoes._formatar_resposta floatstr resposta = Json.dumps floatstr 4 dados) /\
  (Json.loads resposta = None ->
   Requisicoes._formatar_resposta floatstr resposta = resposta) /\
  (forall c, (128 <= N_of_ascii c)%N -> Json.escape_char c = String c EmptyString) /\
  Requisicoes._formatar_resposta floatstr (Text.sample "{'a':1}") =
    Text.sample "{|    'a': 1|}" /\
  Requisicoes._formatar_resposta floatstr "not json" = "not json"%string /\
  Requisicoes._formatar_resposta floatstr (Text.sample "{'cidade':['São Paulo','Belém']}") =
    Text.sample "{|    'cidade': [|        'São Paulo',|        'Belém'|    ]|}".
Proof.
  unfold Requisicoes._formatar_resposta.
  split; [| split; [| split; [| split; [| split; [| split]]]]].
  - apply decode_has_fuel.
  - by intros dados ->.
  - by intros ->.
  - apply escape_char_non_ascii.
  - reflexivity.
  - reflexivity.
  - reflexivity.
Qed.

(** An escaped character of the input is written unescaped, a control
    character stays escaped, a repeated key keeps its last value. *)
Example formatar_resposta_escapes (floatstr : string -> string) :
  Requisicoes._formatar_resposta floatstr (Text.sample "['S^u00e3o', 'a^nb', '^ud83d^ude00']") =
    Text.sample "[|    'São',|    'a^nb',|    '😀'|]" /\
  Requisicoes._formatar_resposta floatstr (Text.sample "{'a':1,'b':2,'a':3}") =
    Text.sample "{|    'a': 3,|    'b': 2|}" /\
  Requisicoes._formatar_resposta floatstr (Text.sample "[1, 2.50]") =
    Text.sample "[|    1,|    " +:+ floatstr "2.50" +:+ Text.sample "|]".
Proof. repeat split; reflexivity. Qed.

(** * Properties of the retry loop *)


Section RetryLoop.

Import Requisicoes.

Variable floatstr : string -> string.
Variable net : Z -> response.
Variables (url : string) (headers : gmap string string) (timeout retries : Z).
Variable proxy_handler : option (gmap string string).

Abbreviation loop := (retry_loop floatstr net url headers timeout retries proxy_handler).
Abbreviation attempt := (Open proxy_handler url headers timeout).

(** One turn of the loop, as the source writes it. *)
Lemma retry_loop_unfold (tentativa : Z) (st : state) :
  loop tentativa st =
  if Z_lt_dec tentativa retries then
    match net tentativa with
    | Body dados =>
        (Returned FromResponse (_formatar_resposta floatstr dados),
         store url (_formatar_resposta floatstr dados) (log attempt st))
    | Raises e =>
        if caught e then
          if tentativa =? retries - 1 then (Returned FromError (erro_msg e), log attempt st)
          else loop (tentativa + 1) (log (Sleep 2) (log attempt st))
        else (Raised e, log attempt st)
    end
  else (Returned FromFallback fallback_msg, st).
Proof.
  rewrite retry_loop_equation_1.
  destruct (Z_lt_dec tentativa retries); reflexivity.
Qed.

(** Induction along the loop: downwards from [retries]. *)
Lemma retry_loop_ind (P : Z -> Prop) :
  (forall tentativa, retries <= tentativa -> P tentativa) ->
  (forall tentativa, tentativa < retries -> P (tentativa + 1) -> P tentativa) ->
  forall tentativa, P tentativa.
Proof.
  intros Hstop Hstep tentativa.
  remember (Z.to_nat (retries - tentativa)) as n eqn:Hn.
  revert tentativa Hn.
  induction n as [|n IH]; intros tentativa Hn.
  - apply Hstop. lia.
  - apply Hstep; [lia|]. apply IH. lia.
Qed.

Lemma retry_loop_exhausted (tentativa : Z) (st : state) :
  retries <= tentativa ->
  loop tentativa st = (Returned FromFallback fallback_msg, st).
Proof.
  intros H. rewrite retry_loop_unfold.
  destruct (Z_lt_dec tentativa retries); [lia | reflexivity].
Qed.

(** The loop adds events to the trace and touches the cache only to store
    a formatted response; result and events do not depend on the state it
    starts from. *)
Lemma retry_loop_shape (tentativa : Z) :
  exists r evs, forall st,
    loop tentativa st =
    (r, {| cache := match r with
                    | Returned FromResponse v => <[url := v]> (cache st)
                    | _ => cache st
                    end;
           trace := trace st ++ evs |}).
Proof.
  induction tentativa as [tentativa Hge | tentativa Hlt IH] using retry_loop_ind.
  - exists (Returned FromFallback fallback_msg), []. intros [c t].
    rewrite retry_loop_exhausted by lia. simpl. by rewrite app_nil_r.
  - destruct (net tentativa) as [dados | e] eqn:Hnet.
    + exists (Returned FromResponse (_formatar_resposta floatstr dados)), [attempt].
      intros st. rewrite retry_loop_unfold, Hnet.
      destruct (Z_lt_dec tentativa retries); [reflexivity | lia].
    + destruct (caught e) eqn:Hc.
      * destruct (tentativa =? retries - 1) eqn:Hlast.
        -- exists (Returned FromError (erro_msg e)), [attempt].
           intros st. rewrite retry_loop_unfold, Hnet, Hc, Hlast.
           destruct (Z_lt_dec tentativa retries); [reflexivity | lia].
        -- destruct IH as (r & evs & IH).
           exists r, (attempt :: Sleep 2 :: evs).
           intros st. rewrite retry_loop_unfold, Hnet, Hc, Hlast.
           destruct (Z_lt_dec tentativa retries); [| lia].
           rewrite IH. simpl. rewrite <- !app_assoc. reflexivity.
      * exists (Raised e), [attempt].
        intros st. rewrite retry_loop_unfold, Hnet, Hc.
        destruct (Z_lt_dec tentativa retries); [reflexivity | lia].
Qed.

(** Where the loop can leave from once it is entered. *)
Lemma retry_loop_entered (tentativa : Z) (st : state) :
  tentativa < retries ->
  match (loop tentativa st).1 with
  | Returned FromResponse v =>
      exists k dados, tentativa <= k < retries /\ net k = Body dados
                      /\ v = _formatar_resposta floatstr dados
  | Returned FromError v =>
      exists e, net (retries - 1) = Raises e /\ caught e = true /\ v = erro_msg e
  | Returned _ _ => False
  | Raised e =>
      exists k, tentativa <= k < retries /\ net k = Raises e /\ caught e = false
  end.
Proof.
  revert st.
  induction tentativa as [tentativa Hge | tentativa Hlt IH] using retry_loop_ind;
    intros st Hlt'; [lia|].
  rewrite retry_loop_unfold.
  destruct (Z_lt_dec tentativa retries); [| lia].
  destruct (net tentativa) as [dados | e] eqn:Hnet; simpl.
  - exists tentativa, dados. repeat split; [lia | lia | done].
  - destruct (caught e) eqn:Hc; simpl.
    + destruct (Z.eqb_spec tentativa (retries - 1)) as [-> | Hne]; simpl.
      * exists e. done.
      * specialize (IH (log (Sleep 2) (log attempt st)) ltac:(lia)).
        destruct (loop (tentativa + 1) _).1 as [[] v | e']; try done.
        -- destruct IH as (k & dados & ? & ? & ?). exists k, dados. repeat split; [lia | lia | done | done].
        -- destruct IH as (k & ? & ? & ?). exists k. repeat split; [lia | lia | done | done].
    + exists tentativa. repeat split; [lia | lia | done | done].
Qed.

(** Once entered, the loop starts with a network attempt. *)
Lemma retry_loop_first_attempt (tentativa : Z) (st : state) :
  tentativa < retries ->
  exists evs, trace (loop tentativa st).2 = trace st ++ attempt :: evs.
Proof.
  intros Hlt. rewrite retry_loop_unfold.
  destruct (Z_lt_dec tentativa retries); [| lia].
  destruct (net tentativa) as [dados | e]; [by exists []|].
  destruct (caught e); [| by exists []].
  destruct (tentativa =? retries - 1); [by exists []|].
  destruct (retry_loop_shape (tentativa + 1)) as (r & evs & ->).
  exists (Sleep 2 :: evs). simpl. rewrite <- !app_assoc. reflexivity.
Qed.


End RetryLoop.

(** * Properties of [fazer_get] *)

Section FazerGet.

Import Requisicoes.

Variable floatstr : string -> string.
Variable net : Z -> response.

(** The URL the call works with is the one [_montar_url_com_params]
    assembles, also when [params] is empty or absent. *)
Lemma assembled_url (url : string) (params : option (list (string * string))) :
  match params with
  | Some (_ :: _) => _montar_url_com_params url params
  | _ => url
  end = _montar_url_com_params url params.
Proof. destruct params as [[|item items]|]; reflexivity. Qed.

(** A call that does not return from the cache builds the opener and runs
    the loop from zero, with headers that depend on [headers] and [auth]
    only. *)
Lemma fazer_get_miss url headers params timeout retries proxy auth :
  exists hs, forall use_cache st,
    use_cache = false \/ cache st !! _montar_url_com_params url params = None ->
    let ph := if truthy proxy then proxy else None in
    let run := retry_loop floatstr net (_montar_url_com_params url params) hs timeout
                 retries ph 0 (log (BuildOpener ph) st) in
    fazer_get floatstr net url headers params timeout retries use_cache proxy auth st =
    {| result_of := run.1;
       headers_after := match headers with Some _ => Some hs | None => None end;
       state_after := run.2 |}.
Proof.
  exists (if truthy auth then _adicionar_autenticacao (default ∅ auth) ∪ default ∅ headers
          else default ∅ headers).
  intros use_cache st Hmiss.
  cbv zeta. unfold fazer_get. rewrite assembled_url.
  assert ((if use_cache then cache st !! _montar_url_com_params url params else None) = None)
    as -> by (destruct Hmiss as [-> | ->]; [done | by destruct use_cache]).
  destruct (retry_loop _ _ _ _ _ _ _ _ _) as [r st']. reflexivity.
Qed.

(** C6: with [use_cache] true and the assembled URL in the cache, the
    call returns the stored string at once: the result is the entry, no
    call is added to the trace (no opener built, no network attempt, no
    sleep), the cache is untouched and the caller's headers are left as
    they were passed (no authentication header merged). *)
Theorem fazer_get_cache_hit url headers params timeout retries proxy auth st cached :
  cache st !! _montar_url_com_params url params = Some cached ->
  fazer_get floatstr net url headers params timeout retries true proxy auth st =
  {| result_of := Returned FromCache cached;
     headers_after := headers;
     state_after := st |}.
Proof.
  intros Hhit. unfold fazer_get. rewrite assembled_url, Hhit. reflexivity.
Qed.

(** C3, amended: an entry present in the cache short-circuits a later
    call for the same assembled URL when that call passes [use_cache]
    true; when it passes false the entry is not looked up, the call never
    returns from the cache and, with at least one retry allowed, it makes
    a network attempt. *)
Theorem fazer_get_cached_entry url headers params timeout retries use_cache proxy auth st cached :
  cache st !! _montar_url_com_params url params = Some cached ->
  let o := fazer_get floatstr net url headers params timeout retries use_cache proxy auth st in
  (use_cache = true ->
     result_of o = Returned FromCache cached /\ state_after o = st) /\
  (use_cache = false ->
     (forall v, result_of o <> Returned FromCache v) /\
     (1 <= retries ->
        exists hs evs,
          trace (state_after o) =
          trace st ++ BuildOpener (if truthy proxy then proxy else None)
            :: Open (if truthy proxy then proxy else None)
                 (_montar_url_com_params url params) hs timeout :: evs)).
Proof.
  intros Hhit o. split; intros ->.
  - subst o. unfold fazer_get. rewrite assembled_url, Hhit. done.
  - destruct (fazer_get_miss url headers params timeout retries proxy auth) as (hs & Hrun).
    specialize (Hrun false st ltac:(by left)).
    cbv zeta in Hrun. subst o. rewrite Hrun. simpl. split.
    + intros v Hv.
      destruct (Z_lt_dec 0 retries) as [Hlt | Hge].
      * pose proof (retry_loop_entered floatstr net (_montar_url_com_params url params) hs
                      timeout retries (if truthy proxy then proxy else None) 0
                      (log (BuildOpener (if truthy proxy then proxy else None)) st) Hlt) as H.
        rewrite Hv in H. done.
      * rewrite retry_loop_exhausted in Hv by lia. done.
    + intros Hret.
      destruct (retry_loop_first_attempt floatstr net (_montar_url_com_params url params) hs
                  timeout retries (if truthy proxy then proxy else None) 0
                  (log (BuildOpener (if truthy proxy then proxy else None)) st)) as (evs & ->);
        [lia|].
      exists hs, evs. simpl. rewrite <- app_assoc. reflexivity.
Qed.



(** C10: with [retries <= 0] and no return from the cache the loop body
    never runs: the only call made is the construction of the opener, no
    network attempt is added, the cache is as before and the result is
    the literal after the loop. *)
Theorem fazer_get_no_retries url headers params timeout retries use_cache proxy auth st :
  retries <= 0 ->
  use_cache = false \/ cache st !! _montar_url_com_params url params = None ->
  let o := fazer_get floatstr net url headers params timeout retries use_cache proxy auth st in
  result_of o = Returned FromFallback "Erro: Número máximo de tentativas atingido." /\
  cache (state_after o) = cache st /\
  trace (state_after o) = trace st ++ [BuildOpener (if truthy proxy then proxy else None)] /\
  attempts_in (trace (state_after o)) = attempts_in (trace st).
Proof.
  intros Hn Hmiss o.
  destruct (fazer_get_miss url headers params timeout retries proxy auth) as (hs & Hrun).
  specialize (Hrun use_cache st Hmiss).
  cbv zeta in Hrun. subst o. rewrite Hrun, retry_loop_exhausted by lia. simpl.
  repeat split.
  unfold attempts_in. rewrite List.filter_app, length_app. simpl. lia.
Qed.

(** C2, amended: with [use_cache] false the cache is not read (result,
    headers and calls made are the same whatever the cache holds), and it
    is left as it was unless an attempt succeeds; the formatted body of a
    successful attempt is stored under the assembled URL. *)
Theorem fazer_get_without_cache_flag url headers params timeout retries proxy auth c1 c2 t :
  let o1 := fazer_get floatstr net url headers params timeout retries false proxy auth
              {| cache := c1; trace := t |} in
  let o2 := fazer_get floatstr net url headers params timeout retries false proxy auth
              {| cache := c2; trace := t |} in
  result_of o1 = result_of o2 /\
  headers_after o1 = headers_after o2 /\
  trace (state_after o1) = trace (state_after o2) /\
  cache (state_after o1) =
    match result_of o1 with
    | Returned FromResponse v => <[_montar_url_com_params url params := v]> c1
    | _ => c1
    end.
Proof.
  intros o1 o2.
  destruct (fazer_get_miss url headers params timeout retries proxy auth) as (hs & Hrun).
  pose proof (Hrun false {| cache := c1; trace := t |} ltac:(by left)) as H1.
  pose proof (Hrun false {| cache := c2; trace := t |} ltac:(by left)) as H2.
  cbv zeta in H1, H2. subst o1 o2. rewrite H1, H2.
  destruct (retry_loop_shape floatstr net (_montar_url_com_params url params) hs timeout
              retries (if truthy proxy then proxy else None) 0) as (r & evs & Hshape).
  rewrite !Hshape. simpl. done.
Qed.

End FazerGet.

(** C1, at the failing input: one allowed attempt that meets HTTP status
    404.  The handler tests [isinstance(e, URLError)], which holds for an
    [HTTPError] as well, so the transport format is used and the status
    code is not part of the message. *)
Theorem fazer_get_http_error_message (floatstr : string -> string) :
  let o := Requisicoes.fazer_get floatstr
             (fun _ => Requisicoes.Raises (Requisicoes.HTTPError 404 "Not Found"))
             "http://example.com/missing" None None 10 1 false None None
             {| Requisicoes.cache := ∅; Requisicoes.trace := [] |} in
  Requisicoes.result_of o = Requisicoes.Returned Requisicoes.FromError "Erro: Not Found" /\
  Requisicoes.erro_msg (Requisicoes.HTTPError 404 "Not Found") <> "Erro HTTP: 404 - Not Found"%string.
Proof.
  split; [reflexivity | discriminate].
Qed.

(** Every exception the handler catches is formatted as a transport
    failure. *)
Lemma erro_msg_caught (e : Requisicoes.exception) :
  Requisicoes.caught e = true ->
  Requisicoes.erro_msg e = ("Erro: " +:+ Requisicoes.reason_of e)%string.
Proof. destruct e; [reflexivity | reflexivity | discriminate]. Qed.

(** C2, as stated, fails: a successful attempt is stored although
    [use_cache] is false. *)
Lemma fazer_get_stores_without_cache_flag :
  let st := {| Requisicoes.cache := ∅; Requisicoes.trace := [] |} in
  let o := Requisicoes.fazer_get (fun literal => literal) (fun _ => Requisicoes.Body "ok")
             "http://example.com/" None None 10 1 false None None st in
  Requisicoes.result_of o = Requisicoes.Returned Requisicoes.FromResponse "ok" /\
  Requisicoes.cache (Requisicoes.state_after o) !! "http://example.com/"%string = Some "ok"%string /\
  Requisicoes.cache st !! "http://example.com/"%string = None /\
  Requisicoes.cache (Requisicoes.state_after o) <> Requisicoes.cache st.
Proof.
  cbv zeta. repeat split; try reflexivity.
  intros H. apply (f_equal (fun c => c !! "http://example.com/"%string)) in H.
  vm_compute in H. discriminate.
Qed.

(** C3, as stated, fails: with [use_cache] false a cached entry is not
    returned; the network is asked and its answer is the result. *)
Lemma fazer_get_cached_entry_bypassed :
  let st := {| Requisicoes.cache := {[ "http://example.com/"%string := "old"%string ]};
               Requisicoes.trace := [] |} in
  let o := Requisicoes.fazer_get (fun literal => literal) (fun _ => Requisicoes.Body "new")
             "http://example.com/" None None 10 1 false None None st in
  Requisicoes.cache st !! "http://example.com/"%string = Some "old"%string /\
  Requisicoes.result_of o = Requisicoes.Returned Requisicoes.FromResponse "new" /\
  Requisicoes.trace (Requisicoes.state_after o) =
    [Requisicoes.BuildOpener None; Requisicoes.Open None "http://example.com/" ∅ 10].
Proof.
  cbv zeta. repeat split; reflexivity.
Qed.



(** ** The hypotheses of the theorems above are met by concrete calls *)

(** C6, on a call with parameters, caller headers and a token. *)
Lemma fazer_get_cache_hit_witness :
  Requisicoes.fazer_get (fun literal => literal) (fun _ => Requisicoes.Body "fresh")
    "http://example.com/a" (Some {[ "Accept"%string := "text/plain"%string ]})
    (Some [("q"%string, "1"%string)]) 10 3 true None
    (Some {[ "token"%string := "abc"%string ]})
    {| Requisicoes.cache := {[ "http://example.com/a?q=1"%string := "cached"%string ]};
       Requisicoes.trace := [] |} =
  {| Requisicoes.result_of := Requisicoes.Returned Requisicoes.FromCache "cached";
     Requisicoes.headers_after := Some {[ "Accept"%string := "text/plain"%string ]};
     Requisicoes.state_after :=
       {| Requisicoes.cache := {[ "http://example.com/a?q=1"%string := "cached"%string ]};
          Requisicoes.trace := [] |} |}.
Proof.
  apply fazer_get_cache_hit. reflexivity.
Defined.

(** C3, on an entry stored under the requested URL. *)
Lemma fazer_get_cached_entry_witness :
  let st := {| Requisicoes.cache := {[ "http://example.com/"%string := "old"%string ]};
               Requisicoes.trace := [] |} in
  let o := Requisicoes.fazer_get (fun literal => literal) (fun _ => Requisicoes.Body "new")
             "http://example.com/" None None 10 1 true None None st in
  Requisicoes.result_of o = Requisicoes.Returned Requisicoes.FromCache "old" /\
  Requisicoes.state_after o = st.
Proof.
  cbv zeta.
  apply (fazer_get_cached_entry (fun literal => literal) (fun _ => Requisicoes.Body "new")
           "http://example.com/" None None 10 1 true None None
           {| Requisicoes.cache := {[ "http://example.com/"%string := "old"%string ]};
              Requisicoes.trace := [] |} "old");
    reflexivity.
Defined.



(** C10, on a call with [retries = 0]. *)
Lemma fazer_get_no_retries_witness :
  let o := Requisicoes.fazer_get (fun literal => literal) (fun _ => Requisicoes.Body "unused")
             "http://example.com/" None None 10 0 true None None
             {| Requisicoes.cache := ∅; Requisicoes.trace := [] |} in
  Requisicoes.result_of o =
    Requisicoes.Returned Requisicoes.FromFallback "Erro: Número máximo de tentativas atingido." /\
  Requisicoes.cache (Requisicoes.state_after o) = ∅ /\
  Requisicoes.trace (Requisicoes.state_after o) = [] ++ [Requisicoes.BuildOpener None] /\
  Requisicoes.attempts_in (Requisicoes.trace (Requisicoes.state_after o)) =
    Requisicoes.attempts_in [].
Proof.
  cbv zeta.
  apply (fazer_get_no_retries (fun literal => literal) (fun _ => Requisicoes.Body "unused")
           "http://example.com/" None None 10 0 true None None
           {| Requisicoes.cache := ∅; Requisicoes.trace := [] |}).
  - lia.
  - right. reflexivity.
Defined.

(** * Further properties of the static helpers *)

Section Texts.

Local Arguments String.append : simpl nomatch.

Lemma append_assoc (a b c : string) : ((a +:+ b) +:+ c = a +:+ (b +:+ c))%string.
Proof. induction a as [|x a IH]; simpl; [done | by f_equal]. Qed.

Lemma append_empty_r (a : string) : (a +:+ "" = a)%string.
Proof. induction a as [|x a IH]; simpl; [done | by f_equal]. Qed.

Lemma append_length (a b : string) :
  String.length (a +:+ b) = (String.length a + String.length b)%nat.
Proof. induction a as [|x a IH]; simpl; [done | by f_equal]. Qed.

Lemma append_inv_head (a b c : string) : (a +:+ b = a +:+ c)%string -> b = c.
Proof. induction a as [|x a IH]; simpl; [done|]. intros H. inversion H. auto. Qed.

Lemma contains_append (c : ascii) (a b : string) :
  Text.contains c (a +:+ b) = Text.contains c a || Text.contains c b.
Proof.
  induction a as [|x a IH]; simpl; [done|].
  destruct (Ascii.eqb x c); [done | exact IH].
Qed.

(** Two texts that agree up to the first occurrence of a separator agree
    before it and after it. *)
Lemma split_at_first (c : ascii) (a a' x x' : string) :
  Text.contains c a = false -> Text.contains c a' = false ->
  (a +:+ String c x = a' +:+ String c x')%string -> a = a' /\ x = x'.
Proof.
  revert a'. induction a as [|y a IH]; intros [|y' a'] Ha Ha' H; simpl in *.
  - by inversion H.
  - inversion H; subst. by rewrite Ascii.eqb_refl in Ha'.
  - inversion H; subst. by rewrite Ascii.eqb_refl in Ha.
  - inversion H; subst.
    destruct (Ascii.eqb y' c); [done|].
    destruct (IH a' Ha Ha' H2) as [-> ->]. done.
Qed.

End Texts.

(** ** [quote_plus] and [urlencode] lose nothing *)

Section Quoting.

Import UrlParse Reading.

Local Arguments String.append : simpl nomatch.

(** What [quote_plus] writes for one byte. *)
Let plus_byte (c : ascii) : string :=
  if Ascii.eqb c " " then "+"%string else quote_byte "" c.

Lemma replace_append (x y : ascii) (a b : string) :
  Text.replace x y (a +:+ b) = (Text.replace x y a +:+ Text.replace x y b)%string.
Proof. induction a as [|z a IH]; simpl; [done | by rewrite IH]. Qed.

Lemma replace_quote_byte (c : ascii) :
  Text.replace " " "+" (quote_byte " " c) = plus_byte c.
Proof. destruct c as [[] [] [] [] [] [] [] []]; reflexivity. Qed.

Lemma quote_with_space (s : string) :
  Text.replace " " "+" (quote " " s) =
  match s with
  | EmptyString => EmptyString
  | String c r => (plus_byte c +:+ Text.replace " " "+" (quote " " r))%string
  end.
Proof.
  destruct s as [|c r]; [done|].
  change (quote " " (String c r)) with (quote_byte " " c +:+ quote " " r)%string.
  by rewrite replace_append, replace_quote_byte.
Qed.

Lemma quote_without_space (s : string) :
  Text.contains " " s = false -> quote "" s = Text.replace " " "+" (quote " " s).
Proof.
  induction s as [|c r IH]; [done|].
  intros H. simpl in H. destruct (Ascii.eqb_spec c " ") as [|Hne]; [done|].
  rewrite quote_with_space, <- (IH H).
  change (quote "" (String c r)) with (quote_byte "" c +:+ quote "" r)%string.
  f_equal. unfold plus_byte. by destruct (Ascii.eqb_spec c " ").
Qed.

Lemma quote_plus_alt (s : string) : quote_plus s = Text.replace " " "+" (quote " " s).
Proof.
  unfold quote_plus. destruct (Text.contains " " s) eqn:H; [done|].
  by apply quote_without_space.
Qed.

Lemma quote_plus_cons (c : ascii) (s : string) :
  quote_plus (String c s) = (plus_byte c +:+ quote_plus s)%string.
Proof. by rewrite !quote_plus_alt, quote_with_space. Qed.

Lemma unquote_plus_byte (c : ascii) (r : string) :
  unquote_plus (plus_byte c +:+ r) = String c (unquote_plus r).
Proof. destruct c as [[] [] [] [] [] [] [] []]; reflexivity. Qed.

(** [unquote_plus] reads back what [quote_plus] wrote. *)
Lemma unquote_plus_quote_plus (s : string) : unquote_plus (quote_plus s) = s.
Proof.
  induction s as [|c s IH]; [done|].
  by rewrite quote_plus_cons, unquote_plus_byte, IH.
Qed.

Lemma quote_plus_inj (s s' : string) : quote_plus s = quote_plus s' -> s = s'.
Proof.
  intros H. apply (f_equal unquote_plus) in H. by rewrite !unquote_plus_quote_plus in H.
Qed.

Lemma plus_byte_separators (c : ascii) :
  Text.contains "=" (plus_byte c) = false /\ Text.contains "&" (plus_byte c) = false.
Proof. destruct c as [[] [] [] [] [] [] [] []]; split; reflexivity. Qed.

(** A quoted text holds neither of the separators of a query string. *)
Lemma quote_plus_separators (s : string) :
  Text.contains "=" (quote_plus s) = false /\ Text.contains "&" (quote_plus s) = false.
Proof.
  induction s as [|c s [IH1 IH2]]; [done|].
  rewrite quote_plus_cons, !contains_append, IH1, IH2.
  destruct (plus_byte_separators c) as [-> ->]. done.
Qed.

Lemma urlencode_cons (k v : string) (l : list (string * string)) :
  urlencode ((k, v) :: l) =
  (quote_plus k +:+ String "=" (quote_plus v +:+
     match l with [] => "" | _ :: _ => String "&" (urlencode l) end))%string.
Proof.
  unfold urlencode. destruct l as [|kv l].
  - rewrite append_empty_r. reflexivity.
  - cbn [map Text.join]. rewrite append_assoc. reflexivity.
Qed.

(** Different lists of parameters give different query strings. *)
Lemma urlencode_inj (l l' : list (string * string)) : urlencode l = urlencode l' -> l = l'.
Proof.
  revert l'. induction l as [|[k v] l IH]; intros [|[k' v'] l'] H; [done | | |].
  - rewrite urlencode_cons in H. by destruct (quote_plus k').
  - rewrite urlencode_cons in H. by destruct (quote_plus k).
  - rewrite !urlencode_cons in H.
    destruct (quote_plus_separators k) as [Hk _], (quote_plus_separators k') as [Hk' _].
    destruct (quote_plus_separators v) as [_ Hv], (quote_plus_separators v') as [_ Hv'].
    apply split_at_first in H as [Hkk H]; [| done | done].
    apply quote_plus_inj in Hkk as ->.
    destruct l as [|kv l], l' as [|kv' l'].
    + rewrite !append_empty_r in H. by apply quote_plus_inj in H as ->.
    + rewrite append_empty_r in H. rewrite H, contains_append in Hv. simpl in Hv.
      by rewrite orb_true_r in Hv.
    + rewrite append_empty_r in H. rewrite <- H, contains_append in Hv'. simpl in Hv'.
      by rewrite orb_true_r in Hv'.
    + apply split_at_first in H as [Hvv H]; [| done | done].
      apply quote_plus_inj in Hvv as ->. by rewrite (IH _ H).
Qed.

Lemma urlencode_app (l l' : list (string * string)) :
  l <> [] -> l' <> [] ->
  urlencode (l ++ l') = (urlencode l +:+ String "&" (urlencode l'))%string.
Proof.
  intros Hl Hl'. induction l as [|[k v] l IH]; [done|].
  change (((k, v) :: l) ++ l') with ((k, v) :: (l ++ l')).
  rewrite !urlencode_cons. destruct l as [|kv l].
  - simpl app. destruct l' as [|kv' l']; [done|].
    by rewrite append_empty_r, !append_assoc.
  - rewrite IH by done. simpl app. rewrite !append_assoc. simpl. by rewrite !append_assoc.
Qed.

Lemma montar_url_com_params_some (url : string) (params : list (string * string)) :
  params <> [] ->
  Requisicoes._montar_url_com_params url (Some params) =
  (url +:+ String (if Text.contains "?" url then "&" else "?")%char
             (urlencode params))%string.
Proof.
  destruct params as [|item params]; [done|]. intros _.
  unfold Requisicoes._montar_url_com_params.
  by destruct (Text.contains "?" url).
Qed.

(** X10: [_montar_url_com_params] composes: adding parameters to a URL
    that already carries some gives the URL of all of them together, in
    the same order. *)
Theorem montar_url_com_params_twice (url : string) (params more : list (string * string)) :
  Requisicoes._montar_url_com_params
    (Requisicoes._montar_url_com_params url (Some params)) (Some more) =
  Requisicoes._montar_url_com_params url (Some (params ++ more)).
Proof.
  destruct params as [|item params]; [done|].
  destruct more as [|item' more]; [by rewrite app_nil_r|].
  rewrite !montar_url_com_params_some by done.
  rewrite urlencode_app by done.
  rewrite contains_append. simpl Text.contains.
  rewrite append_assoc.
  destruct (Text.contains "?" url); reflexivity.
Qed.

(** X11: for one URL, different parameters give different assembled
    URLs, so they never share an entry of the cache; the same parameters
    in a different order are different parameters. *)
Theorem montar_url_com_params_distinct (url : string) (params params' : list (string * string)) :
  params <> params' ->
  Requisicoes._montar_url_com_params url (Some params) <>
  Requisicoes._montar_url_com_params url (Some params').
Proof.
  intros Hne H. apply Hne. clear Hne.
  destruct params as [|item l], params' as [|item' l']; [done | | |].
  - exfalso. rewrite (montar_url_com_params_some url (item' :: l')) in H by done.
    apply (f_equal String.length) in H.
    rewrite append_length in H. simpl in H. lia.
  - exfalso. rewrite (montar_url_com_params_some url (item :: l)) in H by done.
    apply (f_equal String.length) in H.
    rewrite append_length in H. simpl in H. lia.
  - rewrite !montar_url_com_params_some in H by done.
    apply append_inv_head in H. inversion H as [Hq]. by apply urlencode_inj.
Qed.

End Quoting.

(** ** The credentials of the basic form *)

Section Credentials.

Import Base64 Reading.

Local Arguments String.append : simpl nomatch.

Lemma get_contains (s : string) (i : nat) (c : ascii) :
  String.get i s = Some c -> Text.contains c s = true.
Proof.
  revert i. induction s as [|x s IH]; intros i H; [by destruct i|].
  destruct i as [|i]; simpl in *.
  - inversion H; subst. by rewrite Ascii.eqb_refl.
  - destruct (Ascii.eqb x c); [done | by eapply IH].
Qed.

Lemma digit_base64_char (n : N) : base64_char (digit n) = true.
Proof.
  unfold base64_char, digit.
  destruct (String.get (N.to_nat n) alphabet) as [c|] eqn:H; [| done].
  by rewrite (get_contains _ _ _ H).
Qed.

(** [b64encode] writes four characters of its alphabet, padding
    included, for every three bytes or part of three. *)
Lemma b64encode_shape (s : string) :
  all_chars base64_char (b64encode s) = true /\
  String.length (b64encode s) = (4 * ((String.length s + 2) / 3))%nat.
Proof.
  remember (String.length s) as n eqn:Hn. revert s Hn.
  induction n as [n IH] using lt_wf_ind. intros s Hn.
  destruct s as [|a [|b [|c r]]].
  - subst. done.
  - subst. simpl. by rewrite !digit_base64_char.
  - subst. simpl. by rewrite !digit_base64_char.
  - destruct (IH (String.length r) ltac:(subst; simpl; lia) r eq_refl) as [IHc IHl].
    split.
    + simpl. by rewrite !digit_base64_char, IHc.
    + subst n. simpl String.length. rewrite IHl.
      replace (S (S (S (String.length r))) + 2)%nat with (1 * 3 + (String.length r + 2))%nat
        by lia.
      rewrite Nat.div_add_l by done. lia.
Qed.

(** X12: in the basic form the header value is the word [Basic], a
    space, and characters of the base64 alphabet or padding only, four
    for every three bytes of [username:password]; whatever bytes the user
    name and the password hold, none of them reaches the header as it
    is. *)
Theorem adicionar_autenticacao_basic_shape (auth : gmap string string) (username password : string) :
  auth !! "token"%string = None ->
  auth !! "username"%string = Some username ->
  auth !! "password"%string = Some password ->
  exists credentials,
    Requisicoes._adicionar_autenticacao auth =
      {[ "Authorization"%string := ("Basic " +:+ credentials)%string ]} /\
    all_chars base64_char credentials = true /\
    String.length credentials =
      (4 * ((String.length username + String.length password + 3) / 3))%nat.
Proof.
  intros Htok Hu Hp.
  exists (b64encode (username +:+ ":" +:+ password)).
  destruct (b64encode_shape (username +:+ ":" +:+ password)) as [Hc Hl].
  split; [| split].
  - unfold Requisicoes._adicionar_autenticacao. rewrite Htok, Hu, Hp. apply insert_empty.
  - exact Hc.
  - rewrite Hl, !append_length.
    change (String.length ":") with 1%nat.
    replace (String.length username + (1 + String.length password) + 2)%nat
      with (String.length username + String.length password + 3)%nat by lia.
    reflexivity.
Qed.

End Credentials.

(** X11, on two parameters in the two orders. *)
Lemma montar_url_com_params_distinct_witness :
  [("a", "1"); ("b", "2")]%string <> [("b", "2"); ("a", "1")]%string /\
  Requisicoes._montar_url_com_params "http://example.com/" (Some [("a", "1"); ("b", "2")]%string) <>
  Requisicoes._montar_url_com_params "http://example.com/" (Some [("b", "2"); ("a", "1")]%string).
Proof.
  split; [discriminate|].
  apply montar_url_com_params_distinct. discriminate.
Defined.

(** X12, on a password with a line feed in it. *)
Lemma adicionar_autenticacao_basic_shape_witness :
  exists credentials,
    Requisicoes._adicionar_autenticacao
      {[ "username"%string := "ana"%string;
         "password"%string := String "010" "X-Admin: 1" ]} =
      {[ "Authorization"%string := ("Basic " +:+ credentials)%string ]} /\
    Reading.all_chars Reading.base64_char credentials = true /\
    String.length credentials = (4 * ((3 + 11 + 3) / 3))%nat.
Proof.
  apply (adicionar_autenticacao_basic_shape
           {[ "username"%string := "ana"%string;
              "password"%string := String "010" "X-Admin: 1" ]}
           "ana" (String "010" "X-Admin: 1")); reflexivity.
Defined.

(** * The credentials in the header *)

Section CredentialsReadBack.

Import Base64 Reading.

Local Arguments String.append : simpl nomatch.

(** The four digits [b64encode] writes for the bytes [a], [b] and [c]. *)
Let e1 (a : ascii) : ascii := digit (N.shiftr (N_of_ascii a) 2).
Let e2 (a b : ascii) : ascii :=
  digit (N.lor (N.shiftl (N.land (N_of_ascii a) 3) 4) (N.shiftr (N_of_ascii b) 4)).
Let e3 (b c : ascii) : ascii :=
  digit (N.lor (N.shiftl (N.land (N_of_ascii b) 15) 2) (N.shiftr (N_of_ascii c) 6)).
Let e4 (c : ascii) : ascii := digit (N.land (N_of_ascii c) 63).

Let all_ascii : list ascii := List.map ascii_of_nat (seq 0 256).

Let below (n : nat) : list N := List.map N.of_nat (seq 0 n).

Lemma all_ascii_complete (a : ascii) : In a all_ascii.
Proof.
  unfold all_ascii. apply in_map_iff. exists (nat_of_ascii a). split.
  - apply ascii_nat_embedding.
  - apply in_seq. pose proof (nat_ascii_bounded a). lia.
Qed.

Lemma for_all_ascii (p : ascii -> bool) :
  List.forallb p all_ascii = true -> forall a, p a = true.
Proof. intros H a. eapply forallb_forall in H; [exact H | apply all_ascii_complete]. Qed.

Lemma for_all_below (n : nat) (p : N -> bool) :
  List.forallb p (below n) = true -> forall x, (x < N.of_nat n)%N -> p x = true.
Proof.
  intros H x Hx. eapply forallb_forall in H; [exact H |].
  unfold below. apply in_map_iff. exists (N.to_nat x). split; [apply N2Nat.id |].
  apply in_seq. lia.
Qed.

(** A digit is read back as its value, and is not the padding sign. *)
Lemma index_digit (d : N) :
  (d < 64)%N -> index (digit d) = d /\ Ascii.eqb (digit d) "=" = false.
Proof.
  intros Hd.
  pose proof (for_all_below 64
                (fun d => N.eqb (index (digit d)) d && negb (Ascii.eqb (digit d) "="))
                ltac:(vm_compute; reflexivity) d Hd) as H.
  apply andb_true_iff in H as [H1 H2].
  split; [by apply N.eqb_eq | by apply negb_true_iff].
Qed.

(** Two bits above four, and four bits above two. *)
Lemma two_four (p q : N) :
  (p < 4)%N -> (q < 16)%N ->
  (N.lor (N.shiftl p 4) q < 64)%N /\
  N.shiftr (N.lor (N.shiftl p 4) q) 4 = p /\ N.land (N.lor (N.shiftl p 4) q) 15 = q.
Proof.
  intros Hp Hq.
  pose proof (for_all_below 4
                (fun p => List.forallb
                            (fun q => N.ltb (N.lor (N.shiftl p 4) q) 64
                                      && N.eqb (N.shiftr (N.lor (N.shiftl p 4) q) 4) p
                                      && N.eqb (N.land (N.lor (N.shiftl p 4) q) 15) q)
                            (below 16))
                ltac:(vm_compute; reflexivity) p Hp) as H.
  apply (for_all_below 16 _ H) in Hq.
  apply andb_true_iff in Hq as [Hq H3]. apply andb_true_iff in Hq as [H1 H2].
  repeat split; [by apply N.ltb_lt | by apply N.eqb_eq | by apply N.eqb_eq].
Qed.

Lemma four_two (p q : N) :
  (p < 16)%N -> (q < 4)%N ->
  (N.lor (N.shiftl p 2) q < 64)%N /\
  N.shiftr (N.lor (N.shiftl p 2) q) 2 = p /\ N.land (N.lor (N.shiftl p 2) q) 3 = q.
Proof.
  intros Hp Hq.
  pose proof (for_all_below 16
                (fun p => List.forallb
                            (fun q => N.ltb (N.lor (N.shiftl p 2) q) 64
                                      && N.eqb (N.shiftr (N.lor (N.shiftl p 2) q) 2) p
                                      && N.eqb (N.land (N.lor (N.shiftl p 2) q) 3) q)
                            (below 4))
                ltac:(vm_compute; reflexivity) p Hp) as H.
  apply (for_all_below 4 _ H) in Hq.
  apply andb_true_iff in Hq as [Hq H3]. apply andb_true_iff in Hq as [H1 H2].
  repeat split; [by apply N.ltb_lt | by apply N.eqb_eq | by apply N.eqb_eq].
Qed.

(** The parts of a byte and their sizes. *)
Lemma byte_parts (a : ascii) :
  let x := N_of_ascii a in
  ((N.shiftr x 2 < 64) /\ (N.land x 3 < 4) /\ (N.shiftr x 4 < 16) /\ (N.land x 15 < 16) /\
   (N.shiftr x 6 < 4) /\ (N.land x 63 < 64))%N.
Proof.
  pose proof (for_all_ascii
                (fun a => let x := N_of_ascii a in
                          N.ltb (N.shiftr x 2) 64 && N.ltb (N.land x 3) 4
                          && N.ltb (N.shiftr x 4) 16 && N.ltb (N.land x 15) 16
                          && N.ltb (N.shiftr x 6) 4 && N.ltb (N.land x 63) 64)
                ltac:(vm_compute; reflexivity) a) as H.
  cbv zeta in H. rewrite !andb_true_iff, !N.ltb_lt in H. cbv zeta. tauto.
Qed.

Lemma byte_joined (a : ascii) :
  let x := N_of_ascii a in
  ascii_of_N (N.lor (N.shiftl (N.shiftr x 2) 2) (N.land x 3)) = a /\
  ascii_of_N (N.lor (N.shiftl (N.shiftr x 4) 4) (N.land x 15)) = a /\
  ascii_of_N (N.lor (N.shiftl (N.shiftr x 6) 6) (N.land x 63)) = a.
Proof.
  pose proof (for_all_ascii
                (fun a => let x := N_of_ascii a in
                          Ascii.eqb (ascii_of_N (N.lor (N.shiftl (N.shiftr x 2) 2) (N.land x 3))) a
                          && Ascii.eqb
                               (ascii_of_N (N.lor (N.shiftl (N.shiftr x 4) 4) (N.land x 15))) a
                          && Ascii.eqb
                               (ascii_of_N (N.lor (N.shiftl (N.shiftr x 6) 6) (N.land x 63))) a)
                ltac:(vm_compute; reflexivity) a) as H.
  cbv zeta in H. rewrite !andb_true_iff, !Ascii.eqb_eq in H. cbv zeta. tauto.
Qed.

Lemma byte1_digits (a b : ascii) : byte1 (e1 a) (e2 a b) = a.
Proof.
  destruct (byte_parts a) as (Ha1 & Ha2 & _), (byte_parts b) as (_ & _ & Hb3 & _).
  destruct (two_four _ _ Ha2 Hb3) as (Hv & Hhigh & _).
  unfold byte1, e1, e2.
  rewrite (proj1 (index_digit _ Ha1)), (proj1 (index_digit _ Hv)), Hhigh.
  apply byte_joined.
Qed.

Lemma byte2_digits (a b c : ascii) : byte2 (e2 a b) (e3 b c) = b.
Proof.
  destruct (byte_parts a) as (_ & Ha2 & _), (byte_parts b) as (_ & _ & Hb3 & Hb4 & _),
    (byte_parts c) as (_ & _ & _ & _ & Hc5 & _).
  destruct (two_four _ _ Ha2 Hb3) as (Hv & _ & Hlow).
  destruct (four_two _ _ Hb4 Hc5) as (Hw & Hhigh & _).
  unfold byte2, e2, e3.
  rewrite (proj1 (index_digit _ Hv)), (proj1 (index_digit _ Hw)), Hlow, Hhigh.
  apply byte_joined.
Qed.

Lemma byte3_digits (b c : ascii) : byte3 (e3 b c) (e4 c) = c.
Proof.
  destruct (byte_parts b) as (_ & _ & _ & Hb4 & _),
    (byte_parts c) as (_ & _ & _ & _ & Hc5 & Hc6).
  destruct (four_two _ _ Hb4 Hc5) as (Hw & _ & Hlow).
  unfold byte3, e3, e4.
  rewrite (proj1 (index_digit _ Hw)), (proj1 (index_digit _ Hc6)), Hlow.
  apply byte_joined.
Qed.

Lemma e3_not_padding (b c : ascii) : Ascii.eqb (e3 b c) "=" = false.
Proof.
  destruct (byte_parts b) as (_ & _ & _ & Hb4 & _),
    (byte_parts c) as (_ & _ & _ & _ & Hc5 & _).
  destruct (four_two _ _ Hb4 Hc5) as (Hw & _). apply (index_digit _ Hw).
Qed.

Lemma e4_not_padding (c : ascii) : Ascii.eqb (e4 c) "=" = false.
Proof. destruct (byte_parts c) as (_ & _ & _ & _ & _ & Hc6). apply (index_digit _ Hc6). Qed.

Lemma b64decode_one (a : ascii) : b64decode (b64encode (String a "")) = String a "".
Proof.
  apply String.eqb_eq. revert a.
  apply (for_all_ascii
           (fun a => String.eqb (b64decode (b64encode (String a ""))) (String a ""))).
  vm_compute. reflexivity.
Qed.

Lemma b64decode_two (a b : ascii) :
  b64decode (b64encode (String a (String b ""))) = String a (String b "").
Proof.
  destruct (byte_parts a) as (_ & Ha2 & _), (byte_parts b) as (_ & _ & Hb3 & Hb4 & _).
  destruct (two_four _ _ Ha2 Hb3) as (Hv & _ & Hlow).
  destruct (four_two _ 0%N Hb4 ltac:(done)) as (Hw & Hhigh & _).
  rewrite N.lor_0_r in Hw, Hhigh.
  change (b64encode (String a (String b "")))
    with (String (e1 a) (String (e2 a b)
            (String (digit (N.shiftl (N.land (N_of_ascii b) 15) 2)) "="))).
  cbn [b64decode]. rewrite (proj2 (index_digit _ Hw)).
  change (Ascii.eqb "=" "=") with true. cbv iota.
  rewrite byte1_digits. do 2 f_equal.
  unfold byte2, e2.
  rewrite (proj1 (index_digit _ Hv)), (proj1 (index_digit _ Hw)), Hlow, Hhigh.
  apply byte_joined.
Qed.

Lemma b64encode_three (a b c : ascii) (rest : string) :
  b64encode (String a (String b (String c rest))) =
  String (e1 a) (String (e2 a b) (String (e3 b c) (String (e4 c) (b64encode rest)))).
Proof. reflexivity. Qed.

Lemma b64decode_four (c1 c2 c3 c4 : ascii) (rest : string) :
  Ascii.eqb c3 "=" = false -> Ascii.eqb c4 "=" = false ->
  b64decode (String c1 (String c2 (String c3 (String c4 rest)))) =
  String (byte1 c1 c2) (String (byte2 c2 c3) (String (byte3 c3 c4) (b64decode rest))).
Proof. intros H3 H4. cbn [b64decode]. by rewrite H3, H4. Qed.

(** [b64decode] reads back what [b64encode] wrote. *)
Lemma b64decode_b64encode (s : string) : b64decode (b64encode s) = s.
Proof.
  remember (String.length s) as n eqn:Hn. revert s Hn.
  induction n as [n IH] using lt_wf_ind. intros s Hn.
  destruct s as [|a [|b [|c r]]].
  - reflexivity.
  - apply b64decode_one.
  - apply b64decode_two.
  - rewrite b64encode_three, b64decode_four by (apply e3_not_padding || apply e4_not_padding).
    rewrite byte1_digits, byte2_digits, byte3_digits.
    by rewrite (IH (String.length r) ltac:(subst; simpl; lia) r eq_refl).
Qed.

(** X15: the basic form hides nothing: the header value is the word
    [Basic], a space, and a text that decodes as base64 to
    [username:password], byte for byte. *)
Theorem adicionar_autenticacao_basic_decodes (auth : gmap string string)
    (username password : string) :
  auth !! "token"%string = None ->
  auth !! "username"%string = Some username ->
  auth !! "password"%string = Some password ->
  exists credentials,
    Requisicoes._adicionar_autenticacao auth =
      {[ "Authorization"%string := ("Basic " +:+ credentials)%string ]} /\
    b64decode credentials = (username +:+ ":" +:+ password)%string.
Proof.
  intros Htok Hu Hp. exists (b64encode (username +:+ ":" +:+ password)). split.
  - unfold Requisicoes._adicionar_autenticacao. by rewrite Htok, Hu, Hp.
  - apply b64decode_b64encode.
Qed.

(** X16: the colon between the user name and the password is not
    escaped, so the header does not tell where the user name ends: a
    colon moved from the user name to the password gives the same
    header. *)
Theorem adicionar_autenticacao_colon (a b : gmap string string) (u p q : string) :
  a !! "token"%string = None ->
  a !! "username"%string = Some (u +:+ ":" +:+ p)%string ->
  a !! "password"%string = Some q ->
  b !! "token"%string = None ->
  b !! "username"%string = Some u ->
  b !! "password"%string = Some (p +:+ ":" +:+ q)%string ->
  Requisicoes._adicionar_autenticacao a = Requisicoes._adicionar_autenticacao b.
Proof.
  intros Ha Hau Hap Hb Hbu Hbp. unfold Requisicoes._adicionar_autenticacao.
  rewrite Ha, Hau, Hap, Hb, Hbu, Hbp. by rewrite !append_assoc.
Qed.

End CredentialsReadBack.

Lemma adicionar_autenticacao_basic_decodes_witness :
  exists credentials,
    Requisicoes._adicionar_autenticacao
      {[ "username"%string := "ana"%string; "password"%string := "s3nha!"%string ]} =
      {[ "Authorization"%string := ("Basic " +:+ credentials)%string ]} /\
    Reading.b64decode credentials = "ana:s3nha!"%string.
Proof.
  apply (adicionar_autenticacao_basic_decodes
           {[ "username"%string := "ana"%string; "password"%string := "s3nha!"%string ]}
           "ana" "s3nha!"); reflexivity.
Defined.

Lemma adicionar_autenticacao_colon_witness :
  Requisicoes._adicionar_autenticacao
    {[ "username"%string := "a:b"%string; "password"%string := "c"%string ]} =
  Requisicoes._adicionar_autenticacao
    {[ "username"%string := "a"%string; "password"%string := "b:c"%string ]}.
Proof.
  apply (adicionar_autenticacao_colon
           {[ "username"%string := "a:b"%string; "password"%string := "c"%string ]}
           {[ "username"%string := "a"%string; "password"%string := "b:c"%string ]}
           "a" "b" "c"); reflexivity.
Defined.

(** * Further properties of the retry loop *)

(** One turn of the loop, under a name that the names Equations derives
    for [retry_loop] do not hide. *)
Lemma retry_loop_turn floatstr net url headers timeout retries proxy_handler tentativa st :
  Requisicoes.retry_loop floatstr net url headers timeout retries proxy_handler tentativa st =
  if Z_lt_dec tentativa retries then
    match net tentativa with
    | Requisicoes.Body dados =>
        (Requisicoes.Returned Requisicoes.FromResponse
           (Requisicoes._formatar_resposta floatstr dados),
         Requisicoes.store url (Requisicoes._formatar_resposta floatstr dados)
           (Requisicoes.log (Requisicoes.Open proxy_handler url headers timeout) st))
    | Requisicoes.Raises e =>
        if Requisicoes.caught e then
          if tentativa =? retries - 1 then
            (Requisicoes.Returned Requisicoes.FromError (Requisicoes.erro_msg e),
             Requisicoes.log (Requisicoes.Open proxy_handler url headers timeout) st)
          else
            Requisicoes.retry_loop floatstr net url headers timeout retries proxy_handler
              (tentativa + 1)
              (Requisicoes.log (Requisicoes.Sleep 2)
                 (Requisicoes.log (Requisicoes.Open proxy_handler url headers timeout) st))
        else (Requisicoes.Raised e,
              Requisicoes.log (Requisicoes.Open proxy_handler url headers timeout) st)
    end
  else (Requisicoes.Returned Requisicoes.FromFallback Requisicoes.fallback_msg, st).
Proof. apply retry_loop_unfold. Qed.

Section RetryLoopRuns.

Import Requisicoes.

Variable floatstr : string -> string.
Variable net : Z -> response.
Variables (url : string) (headers : gmap string string) (timeout retries : Z).
Variable proxy_handler : option (gmap string string).

Abbreviation run := (retry_loop floatstr net url headers timeout retries proxy_handler).
Abbreviation request := (Open proxy_handler url headers timeout).

Lemma spaced_attempts_succ (n : nat) (ev : event) :
  spaced_attempts (S (S n)) ev = ev :: Sleep 2 :: spaced_attempts (S n) ev.
Proof. reflexivity. Qed.

(** The first attempt that does not fail decides the call: after [k]
    failed attempts the loop has made [k + 1] attempts, and it stores and
    returns a body, or passes on an exception it does not catch. *)
Lemma retry_loop_decided (k : nat) : forall (tentativa : Z) (st : state),
  tentativa + Z.of_nat k < retries ->
  (forall j, tentativa <= j < tentativa + Z.of_nat k -> fails (net j) = true) ->
  fails (net (tentativa + Z.of_nat k)) = false ->
  run tentativa st =
  match net (tentativa + Z.of_nat k) with
  | Body dados =>
      (Returned FromResponse (_formatar_resposta floatstr dados),
       {| cache := <[url := _formatar_resposta floatstr dados]> (cache st);
          trace := trace st ++ spaced_attempts (S k) request |})
  | Raises e =>
      (Raised e, {| cache := cache st; trace := trace st ++ spaced_attempts (S k) request |})
  end.
Proof.
  induction k as [|k IH]; intros tentativa st Hlt Hfail Hlast.
  - change (Z.of_nat 0) with 0 in *. rewrite Z.add_0_r in Hlast |- *.
    rewrite retry_loop_turn.
    destruct (Z_lt_dec tentativa retries); [| lia].
    destruct (net tentativa) as [dados | e]; [reflexivity|].
    simpl in Hlast. rewrite Hlast. reflexivity.
  - rewrite retry_loop_turn.
    destruct (Z_lt_dec tentativa retries); [| lia].
    pose proof (Hfail tentativa ltac:(lia)) as Hf.
    destruct (net tentativa) as [dados | e]; [done|].
    simpl in Hf. rewrite Hf.
    destruct (Z.eqb_spec tentativa (retries - 1)); [lia|].
    replace (tentativa + Z.of_nat (S k)) with (tentativa + 1 + Z.of_nat k) in * by lia.
    rewrite IH; [| lia | intros j Hj; apply Hfail; lia | done].
    rewrite spaced_attempts_succ.
    destruct (net (tentativa + 1 + Z.of_nat k)); simpl; rewrite <- !app_assoc; reflexivity.
Qed.

(** What a run of the loop adds to the trace: attempts with the same
    request, a sleep of two seconds between consecutive ones, none after
    the last, and never more attempts than [retries] allows. *)
Lemma retry_loop_trace (tentativa : Z) :
  exists n : nat,
    (n <= Z.to_nat (retries - tentativa))%nat /\
    (tentativa < retries -> (1 <= n)%nat) /\
    forall st, trace (run tentativa st).2 = trace st ++ spaced_attempts n request.
Proof.
  induction tentativa as [tentativa Hge | tentativa Hlt IH] using (retry_loop_ind retries).
  - exists 0%nat. repeat split; [lia | lia |].
    intros st. rewrite retry_loop_exhausted by lia. simpl. by rewrite app_nil_r.
  - assert (forall st : state, trace (log request st) = trace st ++ spaced_attempts 1 request)
      as Hone by done.
    destruct (net tentativa) as [dados | e] eqn:Hnet.
    + exists 1%nat. repeat split; [lia | lia |].
      intros st. rewrite retry_loop_turn, Hnet.
      destruct (Z_lt_dec tentativa retries); [done | lia].
    + destruct (caught e) eqn:Hc.
      * destruct (Z.eqb_spec tentativa (retries - 1)) as [Heq | Hne].
        -- exists 1%nat. repeat split; [lia | lia |].
           intros st. rewrite retry_loop_turn, Hnet, Hc.
           destruct (Z_lt_dec tentativa retries); [| lia].
           destruct (Z.eqb_spec tentativa (retries - 1)); [done | lia].
        -- destruct IH as (n & Hn & Hpos & IH).
           specialize (Hpos ltac:(lia)).
           exists (S n). repeat split; [lia | lia |].
           intros st. rewrite retry_loop_turn, Hnet, Hc.
           destruct (Z_lt_dec tentativa retries); [| lia].
           destruct (Z.eqb_spec tentativa (retries - 1)); [lia|].
           rewrite IH. simpl trace. rewrite <- !app_assoc.
           destruct n as [|n]; [lia|]. reflexivity.
      * exists 1%nat. repeat split; [lia | lia |].
        intros st. rewrite retry_loop_turn, Hnet, Hc.
        destruct (Z_lt_dec tentativa retries); [done | lia].
Qed.

(** The value a run returns when it gives up. *)
Lemma retry_loop_error_value (tentativa : Z) (st : state) (site : exit) (v : string) :
  (run tentativa st).1 = Returned site v ->
  site = FromError \/ site = FromFallback ->
  exists detail, v = ("Erro: " +:+ detail)%string.
Proof.
  intros Hr Hsite.
  destruct (Z_lt_dec tentativa retries) as [Hlt | Hge].
  - pose proof (retry_loop_entered floatstr net url headers timeout retries proxy_handler
                  tentativa st Hlt) as H.
    rewrite Hr in H.
    destruct site; try done; [by destruct Hsite |].
    destruct H as (e & _ & Hc & ->).
    exists (reason_of e). by apply erro_msg_caught.
  - rewrite retry_loop_exhausted in Hr by lia. simpl in Hr. inversion Hr; subst.
    by exists "Número máximo de tentativas atingido."%string.
Qed.

End RetryLoopRuns.

(** * Further properties of [fazer_get] *)

Section FazerGetRuns.

Import Requisicoes.

Variable floatstr : string -> string.

(** The headers a call sends and the proxies of its opener. *)
Abbreviation sent_headers headers auth :=
  (if truthy auth then _adicionar_autenticacao (default ∅ auth) ∪ default ∅ headers
   else default ∅ headers).
Abbreviation opener_proxies proxy := (if truthy proxy then proxy else None).

(** A call that does not return from the cache, written out. *)
Lemma fazer_get_run net url headers params timeout retries use_cache proxy auth st :
  use_cache = false \/ cache st !! _montar_url_com_params url params = None ->
  fazer_get floatstr net url headers params timeout retries use_cache proxy auth st =
  {| result_of :=
       (retry_loop floatstr net (_montar_url_com_params url params)
          (sent_headers headers auth) timeout retries (opener_proxies proxy) 0
          (log (BuildOpener (opener_proxies proxy)) st)).1;
     headers_after :=
       match headers with Some _ => Some (sent_headers headers auth) | None => None end;
     state_after :=
       (retry_loop floatstr net (_montar_url_com_params url params)
          (sent_headers headers auth) timeout retries (opener_proxies proxy) 0
          (log (BuildOpener (opener_proxies proxy)) st)).2 |}.
Proof.
  intros Hmiss. unfold fazer_get. rewrite assembled_url.
  assert ((if use_cache then cache st !! _montar_url_com_params url params else None) = None)
    as -> by (destruct Hmiss as [-> | ->]; [done | by destruct use_cache]).
  destruct (retry_loop _ _ _ _ _ _ _ _ _) as [r st']. reflexivity.
Qed.

(** Every call either returns from the cache or is such a run. *)
Lemma fazer_get_cases net url headers params timeout retries use_cache proxy auth st :
  (exists cached,
     use_cache = true /\ cache st !! _montar_url_com_params url params = Some cached /\
     fazer_get floatstr net url headers params timeout retries use_cache proxy auth st =
     {| result_of := Returned FromCache cached; headers_after := headers; state_after := st |}) \/
  (use_cache = false \/ cache st !! _montar_url_com_params url params = None).
Proof.
  destruct use_cache; [| by right; left].
  destruct (cache st !! _montar_url_com_params url params) as [cached|] eqn:Hc; [| by right; right].
  left. exists cached. repeat split.
  unfold fazer_get. rewrite assembled_url, Hc. reflexivity.
Qed.

(** X1: the query parameters reach the call only through the assembled
    URL: passing them is the same as passing the assembled URL and no
    parameters, for the result, the headers and the state alike. *)
Theorem fazer_get_params_in_url net url headers params timeout retries use_cache proxy auth st :
  fazer_get floatstr net url headers params timeout retries use_cache proxy auth st =
  fazer_get floatstr net (_montar_url_com_params url params) headers None timeout retries
    use_cache proxy auth st.
Proof.
  unfold fazer_get. rewrite assembled_url. reflexivity.
Qed.

(** X2: a body after [k] failed attempts.  The call makes [k + 1]
    attempts with a sleep of two seconds between consecutive ones,
    returns the formatted body and stores it under the assembled URL,
    whether [use_cache] is set or not. *)
Theorem fazer_get_succeeds_after_failures net url headers params timeout retries use_cache
    proxy auth st (k : nat) dados :
  use_cache = false \/ cache st !! _montar_url_com_params url params = None ->
  Z.of_nat k < retries ->
  (forall j, 0 <= j < Z.of_nat k -> fails (net j) = true) ->
  net (Z.of_nat k) = Body dados ->
  let o := fazer_get floatstr net url headers params timeout retries use_cache proxy auth st in
  result_of o = Returned FromResponse (_formatar_resposta floatstr dados) /\
  cache (state_after o) =
    <[_montar_url_com_params url params := _formatar_resposta floatstr dados]> (cache st) /\
  trace (state_after o) =
    trace st ++ BuildOpener (opener_proxies proxy)
      :: spaced_attempts (S k)
           (Open (opener_proxies proxy) (_montar_url_com_params url params)
              (sent_headers headers auth) timeout).
Proof.
  intros Hmiss Hk Hfail Hbody o. subst o.
  rewrite (fazer_get_run _ _ _ _ _ _ _ _ _ _ Hmiss). simpl.
  rewrite (retry_loop_decided floatstr net _ _ _ retries _ k 0);
    rewrite ?Z.add_0_l; [| lia | intros j Hj; apply Hfail; lia | by rewrite Hbody].
  rewrite Hbody. simpl. rewrite <- app_assoc. done.
Qed.

(** X3: an exception the handler does not catch, after [k] failed
    attempts.  The call passes it on to the caller after [k + 1] attempts,
    makes no further attempt and leaves the cache as it was. *)
Theorem fazer_get_passes_on_uncaught net url headers params timeout retries use_cache
    proxy auth st (k : nat) e :
  use_cache = false \/ cache st !! _montar_url_com_params url params = None ->
  Z.of_nat k < retries ->
  (forall j, 0 <= j < Z.of_nat k -> fails (net j) = true) ->
  net (Z.of_nat k) = Raises e ->
  caught e = false ->
  let o := fazer_get floatstr net url headers params timeout retries use_cache proxy auth st in
  result_of o = Raised e /\
  cache (state_after o) = cache st /\
  trace (state_after o) =
    trace st ++ BuildOpener (opener_proxies proxy)
      :: spaced_attempts (S k)
           (Open (opener_proxies proxy) (_montar_url_com_params url params)
              (sent_headers headers auth) timeout).
Proof.
  intros Hmiss Hk Hfail Hraise Hc o. subst o.
  rewrite (fazer_get_run _ _ _ _ _ _ _ _ _ _ Hmiss). simpl.
  rewrite (retry_loop_decided floatstr net _ _ _ retries _ k 0);
    rewrite ?Z.add_0_l; [| lia | intros j Hj; apply Hfail; lia | by rewrite Hraise].
  rewrite Hraise. simpl. rewrite <- app_assoc. done.
Qed.

(** X4: a string a call returned from the cache or from a response is
    what the next call for the same URL and parameters, made in the state
    the first call leaves, returns when it passes [use_cache] true,
    whatever its other arguments and whatever the network would answer;
    that call adds nothing to the trace. *)
Theorem fazer_get_second_call_cached net url headers params timeout retries use_cache proxy auth
    st site v net' headers' timeout' retries' proxy' auth' :
  let o := fazer_get floatstr net url headers params timeout retries use_cache proxy auth st in
  result_of o = Returned site v ->
  site = FromCache \/ site = FromResponse ->
  fazer_get floatstr net' url headers' params timeout' retries' true proxy' auth'
    (state_after o) =
  {| result_of := Returned FromCache v;
     headers_after := headers';
     state_after := state_after o |}.
Proof.
  intros o Hr Hsite.
  assert (cache (state_after o) !! _montar_url_com_params url params = Some v) as Hc.
  { subst o.
    destruct (fazer_get_cases net url headers params timeout retries use_cache proxy auth st)
      as [(cached & _ & Hhit & Heq) | Hmiss].
    - rewrite Heq in Hr |- *. simpl in *. by inversion Hr; subst.
    - rewrite (fazer_get_run _ _ _ _ _ _ _ _ _ _ Hmiss) in Hr |- *. simpl in *.
      destruct (retry_loop_shape floatstr net (_montar_url_com_params url params)
                  (sent_headers headers auth) timeout retries (opener_proxies proxy) 0)
        as (r & evs & Hshape).
      rewrite Hshape in Hr |- *. simpl in *. subst r.
      destruct Hsite as [-> | ->]; simpl.
      + pose proof (Hshape st) as Hst.
        destruct (Z_lt_dec 0 retries) as [Hlt | Hge].
        * pose proof (retry_loop_entered floatstr net (_montar_url_com_params url params)
                        (sent_headers headers auth) timeout retries (opener_proxies proxy) 0 st
                        Hlt) as H.
          rewrite Hst in H. done.
        * rewrite retry_loop_exhausted in Hst by lia. by inversion Hst.
      + apply lookup_insert_eq. }
  unfold fazer_get. rewrite assembled_url, Hc. reflexivity.
Qed.

(** X5: a call never removes an entry from the cache and never touches
    the entry of another URL; it changes the cache only when it returns
    a response. *)
Theorem fazer_get_cache_frame net url headers params timeout retries use_cache proxy auth st :
  let o := fazer_get floatstr net url headers params timeout retries use_cache proxy auth st in
  (forall key, key <> _montar_url_com_params url params ->
               cache (state_after o) !! key = cache st !! key) /\
  (forall key, is_Some (cache st !! key) -> is_Some (cache (state_after o) !! key)) /\
  ((forall v, result_of o <> Returned FromResponse v) -> cache (state_after o) = cache st).
Proof.
  intros o. subst o.
  destruct (fazer_get_cases net url headers params timeout retries use_cache proxy auth st)
    as [(cached & _ & _ & ->) | Hmiss]; [done|].
  rewrite (fazer_get_run _ _ _ _ _ _ _ _ _ _ Hmiss). simpl.
  destruct (retry_loop_shape floatstr net (_montar_url_com_params url params)
              (sent_headers headers auth) timeout retries (opener_proxies proxy) 0)
    as (r & evs & Hshape).
  rewrite Hshape. simpl.
  destruct r as [[] v | e]; simpl; try done.
  repeat split.
  - intros key Hkey. by rewrite lookup_insert_ne.
  - intros key Hkey. rewrite lookup_insert. case_decide; [done | exact Hkey].
  - intros H. by destruct (H v).
Qed.

(** X6: what a call adds to the trace.  Nothing when [use_cache] is set
    and the cache holds the assembled URL.  In every other call, one
    construction of the opener followed by at most [retries] attempts,
    and at least one when [retries] is positive, all with the same
    request, with a sleep of two seconds between consecutive attempts and
    none after the last. *)
Theorem fazer_get_trace_shape net url headers params timeout retries use_cache proxy auth st :
  let o := fazer_get floatstr net url headers params timeout retries use_cache proxy auth st in
  (use_cache = true -> is_Some (cache st !! _montar_url_com_params url params) ->
   trace (state_after o) = trace st) /\
  (use_cache = false \/ cache st !! _montar_url_com_params url params = None ->
   exists n : nat,
     (n <= Z.to_nat retries)%nat /\
     (1 <= retries -> (1 <= n)%nat) /\
     trace (state_after o) =
       trace st ++ BuildOpener (opener_proxies proxy)
         :: spaced_attempts n
              (Open (opener_proxies proxy) (_montar_url_com_params url params)
                 (sent_headers headers auth) timeout)).
Proof.
  intros o. subst o. split.
  - intros Huse [cached Hhit].
    destruct (fazer_get_cases net url headers params timeout retries use_cache proxy auth st)
      as [(c & _ & _ & ->) | [Hoff | Hnone]]; [done | congruence | congruence].
  - intros Hmiss. rewrite (fazer_get_run _ _ _ _ _ _ _ _ _ _ Hmiss). simpl.
    destruct (retry_loop_trace floatstr net (_montar_url_com_params url params)
                (sent_headers headers auth) timeout retries (opener_proxies proxy) 0)
      as (n & Hn & Hpos & Htrace).
    exists n. split; [by rewrite Z.sub_0_r in Hn|]. split; [intros Hr; apply Hpos; lia|].
    rewrite Htrace. simpl. by rewrite <- app_assoc.
Qed.

(** X7: the authentication header replaces an [Authorization] header of
    the caller, and it is written into the caller's own dictionary: after
    a call that did not return from the cache the dictionary holds it,
    all other entries unchanged, and this is what the first attempt
    sends. *)
Theorem fazer_get_authorization_header net url (h : gmap string string) params timeout retries
    use_cache proxy (a : gmap string string) st v :
  use_cache = false \/ cache st !! _montar_url_com_params url params = None ->
  _adicionar_autenticacao a = {[ "Authorization"%string := v ]} ->
  let o := fazer_get floatstr net url (Some h) params timeout retries use_cache proxy (Some a) st in
  headers_after o = Some (<["Authorization"%string := v]> h) /\
  (1 <= retries ->
   exists evs,
     trace (state_after o) =
       trace st ++ BuildOpener (opener_proxies proxy)
         :: Open (opener_proxies proxy) (_montar_url_com_params url params)
              (<["Authorization"%string := v]> h) timeout :: evs).
Proof.
  intros Hmiss Hauth o. subst o.
  rewrite (fazer_get_run _ _ _ _ _ _ _ _ _ _ Hmiss). simpl.
  assert (bool_decide (a ≠ ∅) = true) as Ha.
  { apply bool_decide_eq_true. intros ->.
    apply (f_equal (fun m => m !! "Authorization"%string)) in Hauth.
    rewrite lookup_singleton_eq in Hauth. done. }
  rewrite Ha, Hauth, <- insert_union_singleton_l.
  split; [done|]. intros Hret.
  destruct (retry_loop_first_attempt floatstr net (_montar_url_com_params url params)
              (<["Authorization"%string := v]> h) timeout retries (opener_proxies proxy) 0
              (log (BuildOpener (opener_proxies proxy)) st)) as (evs & ->); [lia|].
  exists evs. simpl. by rewrite <- app_assoc.
Qed.

(** X8: a descriptor with neither a token nor both a user name and a
    password is ignored: the call is the call without [auth], and the
    caller's headers get no entry. *)
Theorem fazer_get_unrecognised_auth net url headers params timeout retries use_cache proxy
    (a : gmap string string) st :
  a !! "token"%string = None ->
  a !! "username"%string = None \/ a !! "password"%string = None ->
  fazer_get floatstr net url headers params timeout retries use_cache proxy (Some a) st =
  fazer_get floatstr net url headers params timeout retries use_cache proxy None st.
Proof.
  intros Htok Hpair.
  assert (_adicionar_autenticacao a = ∅) as Hnone.
  { unfold _adicionar_autenticacao. rewrite Htok.
    destruct Hpair as [-> | ->]; [done|]. by destruct (a !! "username"%string). }
  unfold fazer_get. simpl. rewrite Hnone, (left_id_L ∅ (∪)).
  by destruct (bool_decide (a ≠ ∅)).
Qed.

(** X9: every string a call returns for a failure, from the handler or
    after the loop, starts with [Erro: ]. *)
Theorem fazer_get_error_prefix net url headers params timeout retries use_cache proxy auth st
    site v :
  result_of (fazer_get floatstr net url headers params timeout retries use_cache proxy auth st)
    = Returned site v ->
  site = FromError \/ site = FromFallback ->
  exists detail, v = ("Erro: " +:+ detail)%string.
Proof.
  intros Hr Hsite.
  destruct (fazer_get_cases net url headers params timeout retries use_cache proxy auth st)
    as [(cached & _ & _ & Heq) | Hmiss].
  - rewrite Heq in Hr. simpl in Hr. inversion Hr; subst. by destruct Hsite.
  - rewrite (fazer_get_run _ _ _ _ _ _ _ _ _ _ Hmiss) in Hr. simpl in Hr.
    by eapply retry_loop_error_value.
Qed.

End FazerGetRuns.

(** ** Concrete calls that meet the hypotheses *)

(** X2, on a timeout followed by a JSON body, with [use_cache] false. *)
Lemma fazer_get_succeeds_after_failures_witness :
  let net := fun k : Z =>
    if k =? 1 then Requisicoes.Body "[]"
    else Requisicoes.Raises (Requisicoes.URLError "timed out") in
  let o := Requisicoes.fazer_get (fun literal => literal) net
             "http://example.com/itens" None None 10 3 false None None
             {| Requisicoes.cache := ∅; Requisicoes.trace := [] |} in
  Requisicoes.result_of o = Requisicoes.Returned Requisicoes.FromResponse "[]" /\
  Requisicoes.cache (Requisicoes.state_after o) =
    <["http://example.com/itens"%string := "[]"%string]> ∅ /\
  Requisicoes.trace (Requisicoes.state_after o) =
    [Requisicoes.BuildOpener None;
     Requisicoes.Open None "http://example.com/itens" ∅ 10;
     Requisicoes.Sleep 2;
     Requisicoes.Open None "http://example.com/itens" ∅ 10].
Proof.
  cbv zeta.
  apply (fazer_get_succeeds_after_failures (fun literal => literal)
           (fun k : Z =>
              if k =? 1 then Requisicoes.Body "[]"
              else Requisicoes.Raises (Requisicoes.URLError "timed out"))
           "http://example.com/itens" None None 10 3 false None None
           {| Requisicoes.cache := ∅; Requisicoes.trace := [] |} 1 "[]").
  - by left.
  - lia.
  - intros j Hj. assert (j = 0) as -> by lia. reflexivity.
  - reflexivity.
Defined.

(** X3, on a URL without scheme, which [Request] refuses with a
    [ValueError]. *)
Lemma fazer_get_passes_on_uncaught_witness :
  let e := Requisicoes.OtherError "ValueError: unknown url type" in
  let o := Requisicoes.fazer_get (fun literal => literal) (fun _ => Requisicoes.Raises e)
             "example.com" None None 10 3 true None None
             {| Requisicoes.cache := ∅; Requisicoes.trace := [] |} in
  Requisicoes.result_of o = Requisicoes.Raised e /\
  Requisicoes.cache (Requisicoes.state_after o) = ∅ /\
  Requisicoes.trace (Requisicoes.state_after o) =
    [Requisicoes.BuildOpener None; Requisicoes.Open None "example.com" ∅ 10].
Proof.
  cbv zeta.
  apply (fazer_get_passes_on_uncaught (fun literal => literal)
           (fun _ => Requisicoes.Raises (Requisicoes.OtherError "ValueError: unknown url type"))
           "example.com" None None 10 3 true None None
           {| Requisicoes.cache := ∅; Requisicoes.trace := [] |} 0
           (Requisicoes.OtherError "ValueError: unknown url type")).
  - by right.
  - lia.
  - intros j Hj. lia.
  - reflexivity.
  - reflexivity.
Defined.

(** X4, on a first call with [use_cache] false and a second call that
    would meet a dead network. *)
Lemma fazer_get_second_call_cached_witness :
  let o := Requisicoes.fazer_get (fun literal => literal) (fun _ => Requisicoes.Body "ok")
             "http://example.com/" None (Some [("q"%string, "1"%string)]) 10 3 false None None
             {| Requisicoes.cache := ∅; Requisicoes.trace := [] |} in
  Requisicoes.fazer_get (fun literal => literal)
    (fun _ => Requisicoes.Raises (Requisicoes.URLError "unreachable"))
    "http://example.com/" None (Some [("q"%string, "1"%string)]) 5 1 true None None
    (Requisicoes.state_after o) =
  {| Requisicoes.result_of := Requisicoes.Returned Requisicoes.FromCache "ok";
     Requisicoes.headers_after := None;
     Requisicoes.state_after := Requisicoes.state_after o |}.
Proof.
  cbv zeta.
  apply (fazer_get_second_call_cached (fun literal => literal) (fun _ => Requisicoes.Body "ok")
           "http://example.com/" None (Some [("q"%string, "1"%string)]) 10 3 false None None
           {| Requisicoes.cache := ∅; Requisicoes.trace := [] |}
           Requisicoes.FromResponse "ok").
  - reflexivity.
  - by right.
Defined.

(** X7, on a caller that passes its own [Authorization] header and a
    token. *)
Lemma fazer_get_authorization_header_witness :
  let h : gmap string string :=
    {[ "Authorization"%string := "Basic b2xk"%string; "Accept"%string := "*/*"%string ]} in
  let o := Requisicoes.fazer_get (fun literal => literal) (fun _ => Requisicoes.Body "ok")
             "http://example.com/" (Some h) None 10 1 true None
             (Some {[ "token"%string := "abc"%string ]})
             {| Requisicoes.cache := ∅; Requisicoes.trace := [] |} in
  Requisicoes.headers_after o = Some (<["Authorization"%string := "Bearer abc"%string]> h).
Proof.
  cbv zeta.
  apply (fazer_get_authorization_header (fun literal => literal) (fun _ => Requisicoes.Body "ok")
           "http://example.com/"
           {[ "Authorization"%string := "Basic b2xk"%string; "Accept"%string := "*/*"%string ]}
           None 10 1 true None {[ "token"%string := "abc"%string ]}
           {| Requisicoes.cache := ∅; Requisicoes.trace := [] |} "Bearer abc").
  - by right.
  - reflexivity.
Defined.

(** X8, on a descriptor with a user name and no password. *)
Lemma fazer_get_unrecognised_auth_witness :
  Requisicoes.fazer_get (fun literal => literal) (fun _ => Requisicoes.Body "ok")
    "http://example.com/" (Some ∅) None 10 1 true None
    (Some {[ "username"%string := "ana"%string ]})
    {| Requisicoes.cache := ∅; Requisicoes.trace := [] |} =
  Requisicoes.fazer_get (fun literal => literal) (fun _ => Requisicoes.Body "ok")
    "http://example.com/" (Some ∅) None 10 1 true None None
    {| Requisicoes.cache := ∅; Requisicoes.trace := [] |}.
Proof.
  apply fazer_get_unrecognised_auth.
  - reflexivity.
  - by right.
Defined.

(** X9, on a connection that is refused at the only attempt. *)
Lemma fazer_get_error_prefix_witness :
  exists detail, "Erro: Connection refused"%string = ("Erro: " +:+ detail)%string.
Proof.
  apply (fazer_get_error_prefix (fun literal => literal)
           (fun _ => Requisicoes.Raises (Requisicoes.URLError "Connection refused"))
           "http://example.com/" None None 10 1 true None None
           {| Requisicoes.cache := ∅; Requisicoes.trace := [] |}
           Requisicoes.FromError "Erro: Connection refused").
  - reflexivity.
  - by left.
Defined.

(** * Formatting a formatted response *)

Section Integers.

Import Json.

Local Arguments String.append : simpl nomatch.

Lemma int_of_digits_acc (d : Decimal.uint) (acc : positive) :
  int_of_digits (Z.pos acc) (NilEmpty.string_of_uint d) = Z.pos (Pos.of_uint_acc d acc).
Proof.
  revert acc. induction d; intros acc; simpl; [done | rewrite <- IHd; f_equal; lia ..].
Qed.

Lemma int_of_digits_uint (d : Decimal.uint) :
  int_of_digits 0 (NilEmpty.string_of_uint d) = Z.of_N (Pos.of_uint d).
Proof.
  induction d; simpl; [done | exact IHd | apply int_of_digits_acc ..].
Qed.

Lemma nzhead_not_D0 (d w : Decimal.uint) : Decimal.nzhead d <> Decimal.D0 w.
Proof. induction d; simpl; done. Qed.

(** The digits of a positive number start with a digit other than zero. *)
Lemma to_uint_head (p : positive) :
  exists c t,
    NilEmpty.string_of_uint (Pos.to_uint p) = String c t /\
    is_digit c = true /\ Ascii.eqb c "0" = false.
Proof.
  pose proof (DecimalPos.Unsigned.to_of (Pos.to_uint p)) as Hn.
  rewrite DecimalPos.Unsigned.of_to in Hn. simpl in Hn.
  pose proof (DecimalPos.Unsigned.to_uint_nonzero p) as Hz.
  destruct (Pos.to_uint p) as [|u|u|u|u|u|u|u|u|u|u];
    try (by eexists _, _; repeat split; reflexivity).
  - simpl in Hn. discriminate.
  - exfalso. rewrite DecimalFacts.unorm_D0 in Hn. unfold Decimal.unorm in Hn.
    destruct (Decimal.nzhead u) eqn:E; try done.
    by apply nzhead_not_D0 in E.
Qed.

Lemma span_digits_uint (d : Decimal.uint) (rest : string) :
  Values.delimited rest = true ->
  span_digits (NilEmpty.string_of_uint d +:+ rest) = (NilEmpty.string_of_uint d, rest).
Proof.
  intros Hr. induction d; simpl; [| by rewrite IHd ..].
  destruct rest as [|c r]; [done|]. simpl in *.
  destruct (is_digit c); [done | reflexivity].
Qed.

Lemma delimited_no_frac (rest : string) :
  Values.delimited rest = true -> match_frac rest = (EmptyString, rest).
Proof.
  destruct rest as [|c r]; [done|]. simpl.
  destruct (is_digit c), (Ascii.eqb c "."); done.
Qed.

Lemma delimited_no_exp (rest : string) :
  Values.delimited rest = true -> match_exp rest = (EmptyString, rest).
Proof.
  destruct rest as [|c r]; [done|]. simpl.
  destruct (is_digit c), (Ascii.eqb c "."), (Ascii.eqb c "e"), (Ascii.eqb c "E"); done.
Qed.

(** Reading the digits of a positive number gives the number. *)
Lemma match_integer_pos (p : positive) (rest : string) :
  Values.delimited rest = true ->
  match_integer (NilEmpty.string_of_uint (Pos.to_uint p) +:+ rest) =
    Some (NilEmpty.string_of_uint (Pos.to_uint p), rest) /\
  match_integer (String "-" (NilEmpty.string_of_uint (Pos.to_uint p) +:+ rest)) =
    Some (String "-" (NilEmpty.string_of_uint (Pos.to_uint p)), rest).
Proof.
  intros Hr. destruct (to_uint_head p) as (c & t & Hs & Hd & Hz).
  pose proof (span_digits_uint (Pos.to_uint p) rest Hr) as Hspan.
  rewrite Hs in Hspan |- *. simpl in Hspan.
  rewrite Hd in Hspan.
  destruct (span_digits (t +:+ rest)) as [ds r'] eqn:E. inversion Hspan; subst.
  unfold match_integer. simpl.
  assert (Ascii.eqb c "-" = false) as Hm.
  { destruct (Ascii.eqb_spec c "-") as [-> |]; [done | done]. }
  rewrite Hm, Hz, Hd, E. done.
Qed.

Lemma parse_int_digits (c : ascii) (t : string) :
  is_digit c = true -> parse_int (String c t) = int_of_digits 0 (String c t).
Proof.
  intros Hd. unfold parse_int.
  destruct (Ascii.eqb_spec c "-") as [-> |]; [done | done].
Qed.

(** [json.loads] reads back the integer that [json.dumps] wrote. *)
Lemma scan_number_int (n : Z) (rest : string) :
  Values.delimited rest = true ->
  scan_number (Text.str_of_int n +:+ rest) = Some (JInt n, rest).
Proof.
  intros Hr. unfold scan_number, Text.str_of_int.
  destruct n as [|p|p]; simpl Z.to_int; cbn [NilZero.string_of_int NilZero.string_of_uint].
  - simpl. rewrite (delimited_no_frac _ Hr), (delimited_no_exp _ Hr). done.
  - destruct (match_integer_pos p rest Hr) as [Hpos _].
    assert (NilZero.string_of_uint (Pos.to_uint p) = NilEmpty.string_of_uint (Pos.to_uint p))
      as -> by (pose proof (DecimalPos.Unsigned.to_uint_nonnil p); by destruct (Pos.to_uint p)).
    rewrite Hpos, (delimited_no_frac _ Hr), (delimited_no_exp _ Hr).
    destruct (to_uint_head p) as (c & t & Hs & Hd & _).
    do 2 f_equal. rewrite Hs, (parse_int_digits _ _ Hd), <- Hs, int_of_digits_uint.
    by rewrite DecimalPos.Unsigned.of_to.
  - destruct (match_integer_pos p rest Hr) as [_ Hneg].
    assert (NilZero.string_of_uint (Pos.to_uint p) = NilEmpty.string_of_uint (Pos.to_uint p))
      as -> by (pose proof (DecimalPos.Unsigned.to_uint_nonnil p); by destruct (Pos.to_uint p)).
    change (String "-" (NilEmpty.string_of_uint (Pos.to_uint p)) +:+ rest)%string
      with (String "-" (NilEmpty.string_of_uint (Pos.to_uint p) +:+ rest)).
    rewrite Hneg, (delimited_no_frac _ Hr), (delimited_no_exp _ Hr).
    do 2 f_equal. unfold parse_int. simpl.
    rewrite int_of_digits_uint, DecimalPos.Unsigned.of_to. done.
Qed.

(** The text of an integer starts with a digit or a minus sign. *)
Lemma str_of_int_head (n : Z) :
  exists c t, Text.str_of_int n = String c t /\ (is_digit c = true \/ c = "-"%char).
Proof.
  unfold Text.str_of_int. destruct n as [|p|p]; simpl.
  - by eauto.
  - destruct (to_uint_head p) as (c & t & Hs & Hd & _).
    assert (NilZero.string_of_uint (Pos.to_uint p) = NilEmpty.string_of_uint (Pos.to_uint p))
      as -> by (pose proof (DecimalPos.Unsigned.to_uint_nonnil p); by destruct (Pos.to_uint p)).
    by eauto.
  - by eauto.
Qed.

End Integers.

Section Strings.

Import Json.

Local Arguments String.append : simpl nomatch.

Lemma scanstring_escape_char (c : ascii) (r : string) :
  scanstring (escape_char c +:+ r) = prepend (String c EmptyString) (scanstring r).
Proof.
  destruct c as [[] [] [] [] [] [] [] []]; try reflexivity;
    destruct r as [|b [|u r]]; reflexivity.
Qed.

(** [json.loads] reads back the string that [json.dumps] wrote, whatever
    bytes it holds. *)
Lemma scanstring_escape (s rest : string) :
  scanstring (escape s +:+ String quotation_mark rest) = Some (s, rest).
Proof.
  induction s as [|c s IH]; [reflexivity|].
  change (escape (String c s)) with (escape_char c +:+ escape s)%string.
  rewrite append_assoc, scanstring_escape_char, IH. reflexivity.
Qed.

End Strings.

Section Dictionaries.

Import Json.

Lemma dict_set_fresh (k : string) (v : value) (d : list (string * value)) :
  k ∉ map fst d -> dict_set k v d = d ++ [(k, v)].
Proof.
  induction d as [|[k' v'] d IH]; intros Hk; [done|]. simpl in *.
  apply not_elem_of_cons in Hk as [Hne Hk].
  destruct (String.eqb_spec k' k) as [-> | _]; [done|]. by rewrite IH.
Qed.

Lemma dict_fold_fresh (pairs acc : list (string * value)) :
  NoDup (map fst (acc ++ pairs)) ->
  fold_left (fun d kv => dict_set kv.1 kv.2 d) pairs acc = acc ++ pairs.
Proof.
  revert acc. induction pairs as [|[k v] pairs IH]; intros acc Hnd; simpl.
  - by rewrite app_nil_r.
  - rewrite dict_set_fresh.
    + rewrite IH; rewrite <- app_assoc; [done | exact Hnd].
    + rewrite map_app in Hnd. simpl in Hnd. apply NoDup_app in Hnd as (_ & Hd & _).
      intros Hin. apply (Hd _ Hin). by left.
Qed.

(** [dict] leaves a list of distinct keys as it is. *)
Lemma dict_distinct (pairs : list (string * value)) :
  NoDup (map fst pairs) -> dict pairs = pairs.
Proof. intros H. unfold dict. by rewrite dict_fold_fresh. Qed.

Lemma dict_set_keys (k : string) (v : value) (d : list (string * value)) :
  map fst (dict_set k v d) = if bool_decide (k ∈ map fst d) then map fst d else map fst d ++ [k].
Proof.
  induction d as [|[k' v'] d IH]; [done|]. simpl.
  destruct (String.eqb_spec k' k) as [-> | Hne]; simpl.
  - rewrite bool_decide_eq_true_2; [done | by left].
  - rewrite IH. destruct (decide (k ∈ map fst d)) as [Hin | Hnin].
    + rewrite !bool_decide_eq_true_2; [done | by right | done].
    + rewrite !bool_decide_eq_false_2; [done | | done].
      intros Hin. apply elem_of_cons in Hin as [-> | Hin]; done.
Qed.

Lemma dict_set_preserves (P : value -> Prop) (k : string) (v : value) (d : list (string * value)) :
  P v -> Forall (fun kv => P (snd kv)) d -> Forall (fun kv => P (snd kv)) (dict_set k v d).
Proof.
  intros Hv. induction 1 as [|[k' v'] d Hx Hd IH]; simpl.
  - by constructor.
  - destruct (String.eqb k' k); constructor; done.
Qed.

(** The keys of a [dict] are distinct, and it holds only values of the
    list it was built from. *)
Lemma dict_well_formed (P : value -> Prop) (pairs : list (string * value)) :
  Forall (fun kv => P (snd kv)) pairs ->
  NoDup (map fst (dict pairs)) /\ Forall (fun kv => P (snd kv)) (dict pairs).
Proof.
  unfold dict. intros H.
  assert (NoDup (map fst (@nil (string * value))) /\
          Forall (fun kv => P (snd kv)) (@nil (string * value))) as Hacc
    by (split; constructor).
  revert Hacc. generalize (@nil (string * value)) as acc.
  induction H as [|[k v] pairs Hv Hp IH]; intros acc [Hnd Hall]; [done|]. simpl.
  apply IH. split.
  - rewrite dict_set_keys. case_bool_decide as Hin; [done|].
    apply NoDup_app. repeat split; [done | | apply NoDup_singleton].
    intros x Hx Hx'. apply list_elem_of_singleton in Hx' as ->. done.
  - by apply dict_set_preserves.
Qed.

End Dictionaries.

Section ScannedValues.

Import Json Values.

Lemma scan_literal_well_formed (s : string) (v : value) (r : string) :
  scan_literal s = Done v r -> well_formed v.
Proof.
  unfold scan_literal, scan_number. intros H.
  repeat match type of H with
         | match strip_prefix ?p s with _ => _ end = _ =>
             destruct (strip_prefix p s);
             [inversion H; subst; constructor; tauto|]
         end.
  - destruct (match_integer s) as [[integer r0]|]; [|].
    + destruct (match_frac r0) as [frac r1], (match_exp r1) as [exp r2].
      destruct frac, exp; inversion H; subst; constructor.
    + repeat match type of H with
             | match strip_prefix ?p s with _ => _ end = _ =>
                 destruct (strip_prefix p s);
                 [inversion H; subst; constructor; tauto|]
             end.
      done.
Qed.

(** Every value the scanner builds is well formed. *)
Lemma scan_well_formed (fuel : nat) :
  (forall s v r, scan_once fuel s = Done v r -> well_formed v) /\
  (forall s l r, object_pairs fuel s = Done l r ->
                 Forall (fun kv => well_formed (snd kv)) l) /\
  (forall s l r, array_items fuel s = Done l r -> Forall well_formed l).
Proof.
  induction fuel as [|fuel (IHv & IHo & IHa)]; [repeat split; intros; discriminate|].
  repeat split.
  - intros s v r H. simpl in H.
    destruct s as [|c s]; [done|].
    destruct (Ascii.eqb c quotation_mark).
    { destruct (scanstring s) as [[content r']|]; [|done]. inversion H; subst. constructor. }
    destruct (Ascii.eqb c "{").
    { destruct (skip_ws s) as [|c1 r1]; [done|].
      destruct (Ascii.eqb c1 "}"); [inversion H; subst; constructor; constructor|].
      destruct (Ascii.eqb c1 quotation_mark); [|done].
      destruct (object_pairs fuel r1) as [pairs r'| |] eqn:Eo; try done.
      inversion H; subst. apply IHo in Eo.
      destruct (dict_well_formed well_formed pairs Eo). by constructor. }
    destruct (Ascii.eqb c "[").
    { destruct (skip_ws s) as [|c1 r1]; [done|].
      destruct (Ascii.eqb c1 "]"); [inversion H; subst; constructor; constructor|].
      destruct (array_items fuel (String c1 r1)) as [items r'| |] eqn:Ea; try done.
      inversion H; subst. apply IHa in Ea. by constructor. }
    by apply scan_literal_well_formed in H.
  - intros s l r H. simpl in H.
    destruct (scanstring s) as [[key r0]|]; [|done].
    destruct (skip_ws r0) as [|c r1]; [done|].
    destruct (Ascii.eqb c ":"); [|done].
    destruct (scan_once fuel (skip_ws r1)) as [v r2| |] eqn:Ev; try done.
    apply IHv in Ev.
    destruct (skip_ws r2) as [|c2 r3]; [done|].
    destruct (Ascii.eqb c2 "}"); [inversion H; subst; by repeat constructor|].
    destruct (Ascii.eqb c2 ","); [|done].
    destruct (skip_ws r3) as [|c3 r4]; [done|].
    destruct (Ascii.eqb c3 quotation_mark); [|done].
    destruct (object_pairs fuel r4) as [more r5| |] eqn:Eo; try done.
    inversion H; subst. apply IHo in Eo. by constructor.
  - intros s l r H. simpl in H.
    destruct (scan_once fuel s) as [v r0| |] eqn:Ev; try done.
    apply IHv in Ev.
    destruct (skip_ws r0) as [|c r1]; [done|].
    destruct (Ascii.eqb c "]"); [inversion H; subst; by repeat constructor|].
    destruct (Ascii.eqb c ","); [|done].
    destruct (array_items fuel (skip_ws r1)) as [more r2| |] eqn:Ea; try done.
    inversion H; subst. apply IHa in Ea. by constructor.
Qed.

Lemma loads_well_formed (s : string) (v : value) : loads s = Some v -> well_formed v.
Proof.
  unfold loads, decode. intros H.
  destruct (scan_once (fuel_for s) (skip_ws s)) as [v' r| |] eqn:E; try done.
  destruct (skip_ws r); [|done]. inversion H; subst.
  by apply (proj1 (scan_well_formed _)) in E.
Qed.

(** Induction on a value, with the hypothesis for the items of an array
    and the values of an object. *)
Lemma value_induction (P : value -> Prop) :
  P JNull -> (forall b, P (JBool b)) -> (forall n, P (JInt n)) ->
  (forall literal, P (JFloat literal)) -> (forall name, P (JConst name)) ->
  (forall s, P (JStr s)) ->
  (forall items, Forall P items -> P (JArr items)) ->
  (forall pairs, Forall (fun kv => P (snd kv)) pairs -> P (JObj pairs)) ->
  forall v, P v.
Proof.
  intros Hnull Hbool Hint Hfloat Hconst Hstr Harr Hobj.
  fix IH 1. intros [| b | n | literal | name | s | items | pairs].
  - exact Hnull.
  - apply Hbool.
  - apply Hint.
  - apply Hfloat.
  - apply Hconst.
  - apply Hstr.
  - apply Harr. induction items as [|x items IHitems]; constructor; [apply IH | exact IHitems].
  - apply Hobj. induction pairs as [|[k x] pairs IHpairs]; constructor;
      [apply IH | exact IHpairs].
Qed.

End ScannedValues.

Section ReadingBack.

Import Json Values.

Local Arguments String.append : simpl nomatch.

Variable floatstr : string -> string.

Abbreviation enc := (iterencode floatstr 4).
Abbreviation NL := (newline_indent 4).

Lemma skip_ws_spaces (n : nat) (t : string) : skip_ws (spaces n +:+ t) = skip_ws t.
Proof. induction n as [|n IH]; [done | exact IH]. Qed.

Lemma skip_ws_newline (k : nat) (t : string) : skip_ws (NL k +:+ t) = skip_ws t.
Proof. unfold newline_indent. exact (skip_ws_spaces _ t). Qed.

Lemma skip_ws_solid (c : ascii) (t : string) :
  is_ws c = false -> skip_ws (String c t) = String c t.
Proof. intros H. simpl. by rewrite H. Qed.

(** A text that starts with a character other than white space and the
    closing bracket. *)
Let solid (t : string) : Prop :=
  exists c r, t = String c r /\ is_ws c = false /\ Ascii.eqb c "]" = false.

Lemma skip_ws_solid_text (t u : string) : solid t -> skip_ws (t +:+ u) = (t +:+ u)%string.
Proof. intros (c & r & -> & Hc & _). by apply skip_ws_solid. Qed.

Lemma solid_append (t u : string) : solid t -> solid (t +:+ u).
Proof. intros (c & r & -> & Hc & Hb). by exists c, (r +:+ u)%string. Qed.

Lemma numeric_head (c : ascii) :
  is_digit c = true \/ c = "-"%char ->
  is_ws c = false /\ Ascii.eqb c "]" = false /\ Ascii.eqb c quotation_mark = false /\
  Ascii.eqb c "{" = false /\ Ascii.eqb c "[" = false /\
  Ascii.eqb "n" c = false /\ Ascii.eqb "t" c = false /\ Ascii.eqb "f" c = false.
Proof.
  destruct c as [[] [] [] [] [] [] [] []]; intros [H | H];
    try discriminate H; repeat split; reflexivity.
Qed.

Lemma strip_prefix_cons (a : ascii) (p : string) (c : ascii) (t : string) :
  strip_prefix (String a p) (String c t) = if Ascii.eqb a c then strip_prefix p t else None.
Proof. reflexivity. Qed.

Lemma scan_once_other (fuel : nat) (c : ascii) (t : string) :
  Ascii.eqb c quotation_mark = false -> Ascii.eqb c "{" = false -> Ascii.eqb c "[" = false ->
  scan_once (S fuel) (String c t) = scan_literal (String c t).
Proof. intros Hq Ho Ha. cbn [scan_once]. by rewrite Hq, Ho, Ha. Qed.

Lemma scan_once_numeric (fuel : nat) (c : ascii) (t : string) (v : value) (r : string) :
  is_digit c = true \/ c = "-"%char ->
  scan_number (String c t) = Some (v, r) ->
  scan_once (S fuel) (String c t) = Done v r.
Proof.
  intros Hc H. destruct (numeric_head c Hc) as (_ & _ & Hq & Ho & Ha & Hn & Ht & Hf).
  rewrite scan_once_other by done. unfold scan_literal.
  rewrite !strip_prefix_cons, Hn, Ht, Hf, H. reflexivity.
Qed.

Lemma scan_once_int (fuel : nat) (n : Z) (rest : string) :
  delimited rest = true ->
  scan_once (S fuel) (Text.str_of_int n +:+ rest) = Done (JInt n) rest.
Proof.
  intros Hr. pose proof (scan_number_int n rest Hr) as H.
  destruct (str_of_int_head n) as (c & t & Hs & Hc).
  rewrite Hs in H |- *. by apply scan_once_numeric.
Qed.

Lemma scan_once_string (fuel : nat) (s rest : string) :
  scan_once (S fuel) (encode_basestring s +:+ rest) = Done (JStr s) rest.
Proof.
  unfold encode_basestring.
  change (String quotation_mark (escape s +:+ String quotation_mark "") +:+ rest)%string
    with (String quotation_mark ((escape s +:+ String quotation_mark "") +:+ rest)).
  rewrite append_assoc.
  change (String quotation_mark "" +:+ rest)%string with (String quotation_mark rest).
  cbn [scan_once]. rewrite Ascii.eqb_refl, scanstring_escape. reflexivity.
Qed.

(** One turn of [array_items] and of [object_pairs]. *)
Lemma array_items_turn (fuel : nat) (s : string) :
  array_items (S fuel) s =
  match scan_once fuel s with
  | Done v r =>
      match skip_ws r with
      | String c r1 =>
          if Ascii.eqb c "]" then Done [v] r1
          else if Ascii.eqb c "," then
            match array_items fuel (skip_ws r1) with
            | Done more r2 => Done (v :: more) r2
            | Malformed => Malformed
            | NoFuel => NoFuel
            end
          else Malformed
      | EmptyString => Malformed
      end
  | Malformed => Malformed
  | NoFuel => NoFuel
  end.
Proof. reflexivity. Qed.

Lemma object_pairs_turn (fuel : nat) (s : string) :
  object_pairs (S fuel) s =
  match scanstring s with
  | None => Malformed
  | Some (key, r) =>
      match skip_ws r with
      | String c r1 =>
          if Ascii.eqb c ":" then
            match scan_once fuel (skip_ws r1) with
            | Done v r2 =>
                match skip_ws r2 with
                | String c2 r3 =>
                    if Ascii.eqb c2 "}" then Done [(key, v)] r3
                    else if Ascii.eqb c2 "," then
                      match skip_ws r3 with
                      | String c3 r4 =>
                          if Ascii.eqb c3 quotation_mark then
                            match object_pairs fuel r4 with
                            | Done more r5 => Done ((key, v) :: more) r5
                            | Malformed => Malformed
                            | NoFuel => NoFuel
                            end
                          else Malformed
                      | EmptyString => Malformed
                      end
                    else Malformed
                | EmptyString => Malformed
                end
            | Malformed => Malformed
            | NoFuel => NoFuel
            end
          else Malformed
      | EmptyString => Malformed
      end
  end.
Proof. reflexivity. Qed.

Lemma scan_once_array (fuel : nat) (t : string) :
  scan_once (S fuel) (String "[" t) =
  match skip_ws t with
  | String c1 r1 =>
      if Ascii.eqb c1 "]" then Done (JArr []) r1
      else
        match array_items fuel (skip_ws t) with
        | Done items r' => Done (JArr items) r'
        | Malformed => Malformed
        | NoFuel => NoFuel
        end
  | EmptyString => Malformed
  end.
Proof. reflexivity. Qed.

Lemma scan_once_object (fuel : nat) (t : string) :
  scan_once (S fuel) (String "{" t) =
  match skip_ws t with
  | String c1 r1 =>
      if Ascii.eqb c1 "}" then Done (JObj []) r1
      else if Ascii.eqb c1 quotation_mark then
        match object_pairs fuel r1 with
        | Done pairs r' => Done (JObj (dict pairs)) r'
        | Malformed => Malformed
        | NoFuel => NoFuel
        end
      else Malformed
  | EmptyString => Malformed
  end.
Proof. reflexivity. Qed.

(** The text of a value can be read back wherever it is followed by a
    delimiter, given enough fuel. *)
Let reads (v : value) : Prop :=
  exists f0 : nat, forall fuel, (f0 <= fuel)%nat -> forall (level : nat) (rest : string),
    delimited rest = true -> scan_once fuel (enc level v +:+ rest) = Done v rest.

Let sound (v : value) : Prop :=
  well_formed v -> float_free v = true -> reads v /\ forall level, solid (enc level v).

Lemma join_cons (sep p : string) (q : string) (l : list string) :
  Text.join sep (p :: q :: l) = (p +:+ (sep +:+ Text.join sep (q :: l)))%string.
Proof. reflexivity. Qed.

Lemma join_solid (sep : string) (l : list string) :
  l <> [] -> Forall solid l -> solid (Text.join sep l).
Proof.
  intros Hl H. destruct H as [|p l Hp H]; [done|].
  destruct l as [|q l]; [done|]. rewrite join_cons. by apply solid_append.
Qed.

Lemma delimited_comma (t : string) : delimited (String "," t) = true.
Proof. reflexivity. Qed.

Lemma delimited_newline (k : nat) (t : string) : delimited (NL k +:+ t) = true.
Proof. reflexivity. Qed.

Lemma read_items (items : list value) :
  items <> [] ->
  Forall (fun v => reads v /\ forall level, solid (enc level v)) items ->
  exists F : nat, forall fuel, (F <= fuel)%nat -> forall (level : nat) (rest : string),
    array_items fuel
      (Text.join (String "," (NL (S level))) (map (enc (S level)) items)
       +:+ (NL level +:+ String "]" rest)) = Done items rest.
Proof.
  intros Hne H. induction H as [|x items [(f0 & Hx) Hsx] Hitems IH]; [done|]. clear Hne.
  destruct items as [|y items].
  - exists (S f0). intros [|fuel] Hf level rest; [lia|].
    cbn [map Text.join]. rewrite array_items_turn.
    rewrite Hx by (lia || apply delimited_newline).
    rewrite skip_ws_newline, skip_ws_solid by done. reflexivity.
  - destruct (IH ltac:(done)) as (F & HF).
    exists (S (Nat.max f0 F)). intros [|fuel] Hf level rest; [lia|].
    change (map (enc (S level)) (x :: y :: items))
      with (enc (S level) x :: map (enc (S level)) (y :: items)).
    change (map (enc (S level)) (y :: items))
      with (enc (S level) y :: map (enc (S level)) items).
    rewrite join_cons, !append_assoc.
    change (String "," (NL (S level)) +:+
            (Text.join (String "," (NL (S level)))
               (enc (S level) y :: map (enc (S level)) items)
             +:+ (NL level +:+ String "]" rest)))%string
      with (String "," (NL (S level) +:+
            (Text.join (String "," (NL (S level)))
               (enc (S level) y :: map (enc (S level)) items)
             +:+ (NL level +:+ String "]" rest)))).
    rewrite array_items_turn.
    rewrite Hx by (lia || apply delimited_comma).
    rewrite skip_ws_solid by done.
    change (Ascii.eqb "," "]") with false. change (Ascii.eqb "," ",") with true. cbv iota.
    rewrite skip_ws_newline, skip_ws_solid_text.
    + change (enc (S level) y :: map (enc (S level)) items)
        with (map (enc (S level)) (y :: items)).
      rewrite HF by lia. reflexivity.
    + apply join_solid; [done|].
      inversion Hitems as [|? ? [_ Hsy] Hrest]; subst.
      constructor; [apply Hsy|].
      clear -Hrest. induction Hrest as [|z l [_ Hz] _ IHl]; constructor; [apply Hz | exact IHl].
Qed.

(** The text of a key and its value, as the encoder writes them. *)
Let pair_text (level : nat) (kv : string * value) : string :=
  let '(k, v) := kv in (encode_basestring k +:+ ": " +:+ enc level v)%string.

Lemma pair_text_quoted (level : nat) (k : string) (v : value) (u : string) :
  (pair_text level (k, v) +:+ u)%string =
  String quotation_mark
    (escape k +:+ String quotation_mark (String ":" (String " " (enc level v +:+ u)))).
Proof.
  unfold pair_text, encode_basestring.
  change (String quotation_mark (escape k +:+ String quotation_mark "") +:+ ": "
          +:+ enc level v)%string
    with (String quotation_mark
            ((escape k +:+ String quotation_mark "") +:+ (": " +:+ enc level v))).
  change (String quotation_mark
            ((escape k +:+ String quotation_mark "") +:+ (": " +:+ enc level v)) +:+ u)%string
    with (String quotation_mark
            (((escape k +:+ String quotation_mark "") +:+ (": " +:+ enc level v)) +:+ u)).
  by rewrite !append_assoc.
Qed.

Lemma string_tail (a : ascii) (s t : string) : String a s = String a t -> s = t.
Proof. congruence. Qed.

Lemma read_pairs (pairs : list (string * value)) :
  pairs <> [] ->
  Forall (fun kv => reads (snd kv) /\ forall level, solid (enc level (snd kv))) pairs ->
  exists F : nat, forall fuel, (F <= fuel)%nat -> forall (level : nat) (rest r1 : string),
    String quotation_mark r1 =
      (Text.join (String "," (NL (S level))) (map (pair_text (S level)) pairs)
       +:+ (NL level +:+ String "}" rest))%string ->
    object_pairs fuel r1 = Done pairs rest.
Proof.
  intros Hne H. induction H as [|[k x] pairs [(f0 & Hx) Hsx] Hpairs IH]; [done|]. clear Hne.
  simpl in Hx, Hsx.
  destruct pairs as [|[k' y] pairs].
  - exists (S f0). intros [|fuel] Hf level rest r1 Hr1; [lia|].
    cbn [map Text.join] in Hr1. rewrite pair_text_quoted in Hr1. apply string_tail in Hr1. subst r1.
    rewrite object_pairs_turn, scanstring_escape.
    rewrite skip_ws_solid by done. change (Ascii.eqb ":" ":") with true. cbv iota.
    match goal with
    | |- context [skip_ws (String " " ?t)] => change (skip_ws (String " " t)) with (skip_ws t)
    end.
    rewrite skip_ws_solid_text by apply Hsx.
    rewrite Hx by (lia || apply delimited_newline).
    rewrite skip_ws_newline, skip_ws_solid by done. reflexivity.
  - destruct (IH ltac:(done)) as (F & HF).
    exists (S (Nat.max f0 F)). intros [|fuel] Hf level rest r1 Hr1; [lia|].
    change (map (pair_text (S level)) ((k, x) :: (k', y) :: pairs))
      with (pair_text (S level) (k, x) :: pair_text (S level) (k', y)
              :: map (pair_text (S level)) pairs) in Hr1.
    rewrite join_cons, append_assoc, pair_text_quoted in Hr1. apply string_tail in Hr1. subst r1.
    rewrite object_pairs_turn, scanstring_escape.
    rewrite skip_ws_solid by done. change (Ascii.eqb ":" ":") with true. cbv iota.
    match goal with
    | |- context [skip_ws (String " " ?t)] => change (skip_ws (String " " t)) with (skip_ws t)
    end.
    rewrite skip_ws_solid_text by apply Hsx.
    rewrite append_assoc.
    match goal with
    | |- context [(String "," (NL (S level)) +:+ ?t)%string] =>
        change (String "," (NL (S level)) +:+ t)%string with (String "," (NL (S level) +:+ t))
    end.
    rewrite Hx by (lia || apply delimited_comma).
    rewrite skip_ws_solid by done.
    change (Ascii.eqb "," "}") with false. change (Ascii.eqb "," ",") with true. cbv iota.
    rewrite skip_ws_newline.
    change (pair_text (S level) (k', y) :: map (pair_text (S level)) pairs)
      with (map (pair_text (S level)) ((k', y) :: pairs)).
    destruct (Text.join (String "," (NL (S level))) (map (pair_text (S level)) ((k', y) :: pairs))
              +:+ (NL level +:+ String "}" rest))%string as [|c3 r4] eqn:Enext.
    + exfalso. destruct pairs as [|p pairs]; cbn [map Text.join] in Enext.
      * by rewrite pair_text_quoted in Enext.
      * by rewrite append_assoc, pair_text_quoted in Enext.
    + assert (c3 = quotation_mark) as ->.
      { destruct pairs as [|p pairs]; cbn [map Text.join] in Enext.
        - rewrite pair_text_quoted in Enext. by inversion Enext.
        - rewrite append_assoc, pair_text_quoted in Enext. by inversion Enext. }
      rewrite skip_ws_solid by done. rewrite Ascii.eqb_refl.
      rewrite (HF fuel ltac:(lia) level rest r4) by (by rewrite Enext). reflexivity.
Qed.

Lemma iterencode_array (level : nat) (x : value) (items : list value) :
  enc level (JArr (x :: items)) =
  String "["
    (NL (S level)
     +:+ (Text.join (String "," (NL (S level))) (map (enc (S level)) (x :: items))
          +:+ (NL level +:+ "]")))%string.
Proof. reflexivity. Qed.

Lemma iterencode_object (level : nat) (p : string * value) (pairs : list (string * value)) :
  enc level (JObj (p :: pairs)) =
  String "{"
    (NL (S level)
     +:+ (Text.join (String "," (NL (S level))) (map (pair_text (S level)) (p :: pairs))
          +:+ (NL level +:+ "}")))%string.
Proof. reflexivity. Qed.

Lemma solid_literal (c : ascii) (t : string) :
  is_ws c = false -> Ascii.eqb c "]" = false -> solid (String c t).
Proof. intros H1 H2. by exists c, t. Qed.

(** Every well-formed value without floats is read back from its text. *)
Lemma sound_value (v : value) : sound v.
Proof.
  induction v as [| b | n | literal | name | s | items IH | pairs IH] using value_induction;
    intros Hwf Hff.
  - split; [| intros level; by apply solid_literal].
    exists 1%nat. intros [|fuel] Hf level rest _; [lia | reflexivity].
  - split; [| intros level; destruct b; by apply solid_literal].
    exists 1%nat. intros [|fuel] Hf level rest _; [lia|]. by destruct b.
  - split.
    + exists 1%nat. intros [|fuel] Hf level rest Hr; [lia|]. by apply scan_once_int.
    + intros level. cbn [iterencode].
      destruct (str_of_int_head n) as (c & t & -> & Hc).
      destruct (numeric_head c Hc) as (Hw & Hb & _). by apply solid_literal.
  - done.
  - inversion Hwf as [| | | | ? Hname | | |]; subst.
    split.
    + exists 1%nat. intros [|fuel] Hf level rest _; [lia|].
      destruct Hname as [-> | [-> | ->]]; reflexivity.
    + intros level. destruct Hname as [-> | [-> | ->]]; by apply solid_literal.
  - split; [| intros level; by apply solid_literal].
    exists 1%nat. intros [|fuel] Hf level rest _; [lia|]. apply scan_once_string.
  - inversion Hwf as [| | | | | | ? Hitems |]; subst.
    assert (Forall (fun v => reads v /\ forall level, solid (enc level v)) items) as Hall.
    { change (forallb float_free items = true) in Hff. clear Hwf.
      induction IH as [|z l Hz _ IHl]; [constructor|].
      inversion Hitems; subst. cbn [forallb] in Hff.
      apply andb_true_iff in Hff as [Hfz Hfl].
      constructor; [by apply Hz | by apply IHl]. }
    split; [| intros level; destruct items; by apply solid_literal].
    destruct items as [|x items].
    { exists 1%nat. intros [|fuel] Hf level rest _; [lia | reflexivity]. }
    destruct (read_items (x :: items) ltac:(done) Hall) as (F & HF).
    exists (S F). intros [|fuel] Hf level rest _; [lia|].
    rewrite iterencode_array.
    match goal with
    | |- scan_once _ (String "[" ?t +:+ rest)%string = _ =>
        change (String "[" t +:+ rest)%string with (String "[" (t +:+ rest))
    end.
    rewrite !append_assoc.
    change ("]" +:+ rest)%string with (String "]" rest).
    rewrite scan_once_array, skip_ws_newline.
    assert (solid (Text.join (String "," (NL (S level))) (map (enc (S level)) (x :: items))))
      as Hs.
    { apply join_solid; [done|]. clear -Hall.
      induction Hall as [|z l [_ Hz] _ IHl]; constructor; [apply Hz | exact IHl]. }
    rewrite skip_ws_solid_text by exact Hs.
    destruct Hs as (c & r & Hjoin & Hw & Hb). rewrite Hjoin at 1.
    change (String c r +:+ (NL level +:+ String "]" rest))%string
      with (String c (r +:+ (NL level +:+ String "]" rest))).
    cbv beta iota match. rewrite Hb, HF by lia. reflexivity.
  - inversion Hwf as [| | | | | | | ? Hkeys Hvalues]; subst.
    assert (Forall (fun kv => reads (snd kv) /\ forall level, solid (enc level (snd kv))) pairs)
      as Hall.
    { change (forallb (fun kv => let '(_, x) := kv in float_free x) pairs = true) in Hff.
      clear Hwf Hkeys.
      induction IH as [|[k z] l Hz _ IHl]; [constructor|].
      inversion Hvalues; subst. cbn [forallb] in Hff.
      apply andb_true_iff in Hff as [Hfz Hfl].
      constructor; [by apply Hz | by apply IHl]. }
    split; [| intros level; destruct pairs; by apply solid_literal].
    destruct pairs as [|p pairs].
    { exists 1%nat. intros [|fuel] Hf level rest _; [lia | reflexivity]. }
    destruct (read_pairs (p :: pairs) ltac:(done) Hall) as (F & HF).
    exists (S F). intros [|fuel] Hf level rest _; [lia|].
    rewrite iterencode_object.
    match goal with
    | |- scan_once _ (String "{" ?t +:+ rest)%string = _ =>
        change (String "{" t +:+ rest)%string with (String "{" (t +:+ rest))
    end.
    rewrite !append_assoc.
    change ("}" +:+ rest)%string with (String "}" rest).
    rewrite scan_once_object, skip_ws_newline.
    destruct (Text.join (String "," (NL (S level))) (map (pair_text (S level)) (p :: pairs))
              +:+ (NL level +:+ String "}" rest))%string as [|c1 r1] eqn:Etext.
    + exfalso. destruct p as [k v], pairs as [|p' pairs]; cbn [map Text.join] in Etext.
      * by rewrite pair_text_quoted in Etext.
      * by rewrite append_assoc, pair_text_quoted in Etext.
    + assert (c1 = quotation_mark) as ->.
      { destruct p as [k v], pairs as [|p' pairs]; cbn [map Text.join] in Etext.
        - rewrite pair_text_quoted in Etext. by inversion Etext.
        - rewrite append_assoc, pair_text_quoted in Etext. by inversion Etext. }
      rewrite skip_ws_solid by done.
      change (Ascii.eqb quotation_mark "}") with false. rewrite Ascii.eqb_refl.
      rewrite (HF fuel ltac:(lia) level rest r1) by (by rewrite Etext).
      by rewrite dict_distinct.
Qed.

(** [json.loads] reads back from the text of [json.dumps] with an indent
    of four the value it was given. *)
Lemma loads_dumps (v : value) :
  well_formed v -> float_free v = true -> loads (dumps floatstr 4 v) = Some v.
Proof.
  intros Hwf Hff. destruct (sound_value v Hwf Hff) as [(f0 & Hread) Hsolid].
  unfold loads, decode, dumps.
  set (s := enc 0 v).
  assert (skip_ws s = s) as Hskip.
  { destruct (Hsolid 0%nat) as (c & r & Hs & Hw & _). subst s. rewrite Hs.
    by apply skip_ws_solid. }
  assert (scan_once (Nat.max f0 (fuel_for s)) (skip_ws s) = Done v EmptyString) as H.
  { pose proof (Hread (Nat.max f0 (fuel_for s)) ltac:(lia) 0%nat EmptyString eq_refl) as H.
    rewrite append_empty_r in H. fold s in H. rewrite Hskip. exact H. }
  rewrite decode_fuel_irrelevant in H by lia.
  rewrite H. reflexivity.
Qed.

End ReadingBack.

(** X13: a formatted response that holds no float reads back as the value
    the response held: formatting changes the layout and nothing else. *)
Theorem formatar_resposta_same_value (floatstr : string -> string) (resposta : string)
    (dados : Json.value) :
  Json.loads resposta = Some dados ->
  Values.float_free dados = true ->
  Json.loads (Requisicoes._formatar_resposta floatstr resposta) = Some dados.
Proof.
  intros Hl Hff. unfold Requisicoes._formatar_resposta. rewrite Hl.
  apply loads_dumps; [by eapply loads_well_formed | done].
Qed.

(** X14: formatting is idempotent on responses without floats, JSON or
    not: a formatted response is formatted to itself. *)
Theorem formatar_resposta_idempotent (floatstr : string -> string) (resposta : string) :
  (forall dados, Json.loads resposta = Some dados -> Values.float_free dados = true) ->
  Requisicoes._formatar_resposta floatstr (Requisicoes._formatar_resposta floatstr resposta) =
  Requisicoes._formatar_resposta floatstr resposta.
Proof.
  intros Hff. unfold Requisicoes._formatar_resposta at 2 3.
  destruct (Json.loads resposta) as [dados|] eqn:Hl.
  - unfold Requisicoes._formatar_resposta.
    rewrite (loads_dumps floatstr dados); [done | by eapply loads_well_formed | by apply Hff].
  - unfold Requisicoes._formatar_resposta. by rewrite Hl.
Qed.

Lemma formatar_resposta_same_value_witness :
  Values.float_free (Json.JObj [("a", Json.JArr [Json.JInt 1; Json.JBool true])]) = true /\
  Json.loads (Requisicoes._formatar_resposta (fun literal => literal)
                (Text.sample "{'a':[1,true]}")) =
  Some (Json.JObj [("a", Json.JArr [Json.JInt 1; Json.JBool true])]).
Proof.
  split; [reflexivity|].
  apply (formatar_resposta_same_value (fun literal => literal)
           (Text.sample "{'a':[1,true]}")
           (Json.JObj [("a", Json.JArr [Json.JInt 1; Json.JBool true])]));
    vm_compute; reflexivity.
Defined.

Lemma formatar_resposta_idempotent_witness :
  Json.loads (Text.sample "{'b':[-7,null],'a':'x'}") =
    Some (Json.JObj [("b", Json.JArr [Json.JInt (-7); Json.JNull]); ("a", Json.JStr "x")]) /\
  Requisicoes._formatar_resposta (fun literal => literal)
    (Requisicoes._formatar_resposta (fun literal => literal)
       (Text.sample "{'b':[-7,null],'a':'x'}")) =
  Requisicoes._formatar_resposta (fun literal => literal)
    (Text.sample "{'b':[-7,null],'a':'x'}").
Proof.
  split; [vm_compute; reflexivity|].
  apply (formatar_resposta_idempotent (fun literal => literal)
           (Text.sample "{'b':[-7,null],'a':'x'}")).
  intros dados H. vm_compute in H. injection H as <-. reflexivity.
Defined.
